(** * Windows symbol resolution for libunwind (unwind_windows.c)

    A shallow embedding of the COFF symbol-table reader and of the
    address-to-name resolver that [unwind_windows.c] places behind
    [unw_get_proc_name], together with the properties of its documented
    behaviour.

    Conventions.
    - Fixed-width C integers are [Z] values; where the C arithmetic can leave
      the range of its type the wrap-around is written with [wrap32] and
      [wrap64].
    - Arrays that live in the mapped file (section headers, raw symbol
      records, string table) are read by index, as the C code does, so they
      are total functions from an index; the header fields say how many
      elements the program looks at.
    - The Win32 calls and [malloc] are results supplied by the [process]
      record; [qsort] is the C library's, known by its contract ([Libc]).
    - The process-wide variables form the record [globals]; every entry point
      takes the current globals and returns the new ones.  A result of [None]
      means that the call does not return (a scanning loop that never ends).
    - Calls are made one after the other by a single thread: entering and
      leaving the critical section has no effect of its own, and the second
      test of [g_initialized] under the lock repeats the first.
    - Values read from the file or passed by the caller lie in the range of
      their C type. *)

From Stdlib Require Import Ascii String Strings.Byte.
From Stdlib Require Import ZArith List Bool Lia Permutation Sorted.
Import ListNotations.
Local Open Scope Z_scope.

(** ** Machine arithmetic *)

(** Unsigned 32-bit ([DWORD]) and 64-bit ([DWORD64], [size_t], [unw_word_t])
    wrap-around. *)
Definition wrap32 (z : Z) : Z := z mod 2 ^ 32.
Definition wrap64 (z : Z) : Z := z mod 2 ^ 64.

(** A [BYTE] field read as an integer. *)
Definition byte_val (b : byte) : Z := Z.of_N (Byte.to_N b).

(** ** C strings *)

Definition NUL : ascii := Ascii.zero.

Definition is_NUL (c : ascii) : bool := Ascii.eqb c NUL.

(** The characters of a [char] array that come before its first NUL (all of
    them when the array holds none). *)
Fixpoint c_str (l : list ascii) : list ascii :=
  match l with
  | [] => []
  | c :: l' => if is_NUL c then [] else c :: c_str l'
  end.

Definition strlen (l : list ascii) : Z := Z.of_nat (length (c_str l)).

(** [strncpy(dst, src, n)] followed by [dst[n] = '\0']: the string left in
    [dst] when [src] is a [char] array. *)
Definition strncpy (n : nat) (src : list ascii) : list ascii :=
  firstn n (c_str src).

(** The same when [src] is a pointer [mem + p] into mapped memory: at most
    [n] characters are read, stopping at the first NUL. *)
Fixpoint strncpy_mem (mem : Z -> ascii) (p : Z) (n : nat) : list ascii :=
  match n with
  | O => []
  | S n' => if is_NUL (mem p) then [] else mem p :: strncpy_mem mem (p + 1) n'
  end.

(** [name[0]] of a NUL-terminated local buffer holding [l]. *)
Definition first_char (l : list ascii) : ascii := hd NUL l.

(** An array given by its elements, read by index. *)
Definition array_of {A : Type} (d : A) (l : list A) : Z -> A :=
  fun i => if i <? 0 then d else nth (Z.to_nat i) l d.

(** ** Constants of the platform headers

    [windows.h] and [libunwind.h] are not part of the repository; the values
    below are the ones those headers define ([unwind_windows.c] quotes
    [UNW_ENOINFO] as -6549). *)
Definition MAX_PATH : Z := 260.
Definition IMAGE_DOS_SIGNATURE : Z := 0x5A4D.
Definition IMAGE_NT_SIGNATURE : Z := 0x00004550.
Definition IMAGE_SCN_CNT_CODE : Z := 0x00000020.
Definition IMAGE_SCN_MEM_EXECUTE : Z := 0x20000000.
Definition UNW_EUNSPEC : Z := -6540.
Definition UNW_ENOINFO : Z := -6549.

(** ** The PE image as the parser reads it *)

Record IMAGE_SECTION_HEADER : Type := {
  VirtualAddress : Z;      (* DWORD *)
  Characteristics : Z      (* DWORD *)
}.

(** One 18-byte record of the COFF symbol table.  The name is a union: eight
    inline characters, or ([Zeros] = 0) an offset into the string table.  The
    record keeps the two [DWORD]s of the [LongName] view; [ShortName] reads
    the same eight bytes in memory order (the target is little-endian). *)
Record COFF_SYMBOL : Type := {
  Zeros : Z;                    (* DWORD, Name.LongName.Zeros *)
  Offset : Z;                   (* DWORD, Name.LongName.Offset *)
  Value : Z;                    (* DWORD *)
  SectionNumber : Z;            (* SHORT *)
  Type_ : Z;                    (* WORD *)
  StorageClass : byte;          (* BYTE *)
  NumberOfAuxSymbols : byte     (* BYTE *)
}.

(** Byte [k] (0..3) of a little-endian [DWORD]. *)
Definition dword_byte (w : Z) (k : Z) : ascii :=
  ascii_of_N (Z.to_N (Z.land (Z.shiftr w (8 * k)) 255)).

Definition ShortName (sym : COFF_SYMBOL) : list ascii :=
  [ dword_byte (Zeros sym) 0; dword_byte (Zeros sym) 1;
    dword_byte (Zeros sym) 2; dword_byte (Zeros sym) 3;
    dword_byte (Offset sym) 0; dword_byte (Offset sym) 1;
    dword_byte (Offset sym) 2; dword_byte (Offset sym) 3 ].

(** The fields of the mapped file that [parse_coff_symbols] reads.  The three
    arrays are the views [sections], [symbols] and [string_table] that the
    code forms from offsets found in the headers; they are total here: the
    size of the file is not represented, so a read always has a value and
    the model is silent on access faults. *)
Record pe_image : Type := {
  e_magic : Z;                              (* dos->e_magic *)
  Signature : Z;                            (* nt->Signature *)
  ImageBase : Z;                            (* nt->OptionalHeader.ImageBase *)
  PointerToSymbolTable : Z;                 (* nt->FileHeader, DWORD *)
  NumberOfSymbols : Z;                      (* nt->FileHeader, DWORD *)
  NumberOfSections : Z;                     (* nt->FileHeader, WORD *)
  sections : Z -> IMAGE_SECTION_HEADER;     (* sections[k] *)
  symbols : Z -> COFF_SYMBOL;               (* symbols[i] *)
  string_table : Z -> ascii                 (* string_table[p] *)
}.

(** What the operating system and the allocator answer during one run of
    [parse_coff_symbols]. *)
Record process : Type := {
  path_len : Z;              (* GetModuleFileNameA(NULL, exe_path, MAX_PATH) *)
  exe_module : Z;            (* (DWORD64)GetModuleHandleA(NULL) *)
  file_opened : bool;        (* CreateFileA(...) != INVALID_HANDLE_VALUE *)
  mapping_created : bool;    (* CreateFileMappingA(...) != NULL *)
  view_mapped : bool;        (* MapViewOfFile(...) != NULL *)
  image : pe_image;          (* the bytes at [base] *)
  malloc_succeeds : bool     (* malloc(...) != NULL *)
}.

(** ** The symbol table *)

Record symbol_entry_t : Type := {
  address : Z;               (* DWORD64 *)
  name : list ascii          (* char name[256], the characters before the padding *)
}.

Definition compare_symbols (sa sb : symbol_entry_t) : Z :=
  if address sa <? address sb then -1
  else if address sb <? address sa then 1
  else 0.

Definition is_executable_section (section : IMAGE_SECTION_HEADER) : bool :=
  negb (Z.land (Characteristics section) IMAGE_SCN_CNT_CODE =? 0) ||
  negb (Z.land (Characteristics section) IMAGE_SCN_MEM_EXECUTE =? 0).

Definition is_text_symbol (sym : COFF_SYMBOL)
    (sections : Z -> IMAGE_SECTION_HEADER) (num_sections : Z) : bool :=
  if (SectionNumber sym <=? 0) || (num_sections <? SectionNumber sym) then false
  else
    let section := sections (SectionNumber sym - 1) in
    if negb (is_executable_section section) then false
    else
      let storage := byte_val (StorageClass sym) in
      let derived_type := Z.land (Z.shiftr (Type_ sym) 4) 3 in
      if derived_type =? 2 then true
      else if (storage =? 2) || (storage =? 3) then true
      else false.

(** ** The C library's [qsort]

    [qsort] is not part of the repository.  The C standard promises a
    rearrangement of the array that is ascending for the comparison function;
    it promises nothing about the order of elements that compare equal.  The
    contract is stated for the one comparison function the program passes. *)
Class Libc : Type := {
  qsort : (symbol_entry_t -> symbol_entry_t -> Z) ->
          list symbol_entry_t -> list symbol_entry_t;
  qsort_perm : forall l, Permutation l (qsort compare_symbols l);
  qsort_sorted : forall l,
    StronglySorted (fun a b => compare_symbols a b <= 0) (qsort compare_symbols l)
}.

(** ** Process-wide state *)

(** The file-scope variables.  [g_symbol_table] is [None] for a NULL pointer
    and otherwise holds the entries written so far into the allocated block;
    the part of the block that pass two never writes is not represented, no
    code reads it.  [parse_runs] is not a program variable: it counts the
    executions of [parse_coff_symbols], so that "the parse ran once" can be
    stated. *)
Record globals : Type := {
  g_initialized : Z;
  g_lock_initialized : Z;
  g_symbol_table : option (list symbol_entry_t);
  g_symbol_count : Z;
  g_image_base : Z;
  g_runtime_base : Z;
  parse_runs : nat
}.

(** The values the variables are defined with. *)
Definition initial_globals : globals :=
  {| g_initialized := 0; g_lock_initialized := 0; g_symbol_table := None;
     g_symbol_count := 0; g_image_base := 0; g_runtime_base := 0;
     parse_runs := 0 |}.

Definition set_initialized (v : Z) (g : globals) : globals :=
  {| g_initialized := v; g_lock_initialized := g_lock_initialized g;
     g_symbol_table := g_symbol_table g; g_symbol_count := g_symbol_count g;
     g_image_base := g_image_base g; g_runtime_base := g_runtime_base g;
     parse_runs := parse_runs g |}.

Definition set_lock_initialized (v : Z) (g : globals) : globals :=
  {| g_initialized := g_initialized g; g_lock_initialized := v;
     g_symbol_table := g_symbol_table g; g_symbol_count := g_symbol_count g;
     g_image_base := g_image_base g; g_runtime_base := g_runtime_base g;
     parse_runs := parse_runs g |}.

Definition set_symbol_table (t : option (list symbol_entry_t)) (g : globals) : globals :=
  {| g_initialized := g_initialized g; g_lock_initialized := g_lock_initialized g;
     g_symbol_table := t; g_symbol_count := g_symbol_count g;
     g_image_base := g_image_base g; g_runtime_base := g_runtime_base g;
     parse_runs := parse_runs g |}.

Definition set_symbol_count (n : Z) (g : globals) : globals :=
  {| g_initialized := g_initialized g; g_lock_initialized := g_lock_initialized g;
     g_symbol_table := g_symbol_table g; g_symbol_count := n;
     g_image_base := g_image_base g; g_runtime_base := g_runtime_base g;
     parse_runs := parse_runs g |}.

Definition set_image_base (v : Z) (g : globals) : globals :=
  {| g_initialized := g_initialized g; g_lock_initialized := g_lock_initialized g;
     g_symbol_table := g_symbol_table g; g_symbol_count := g_symbol_count g;
     g_image_base := v; g_runtime_base := g_runtime_base g;
     parse_runs := parse_runs g |}.

Definition set_runtime_base (v : Z) (g : globals) : globals :=
  {| g_initialized := g_initialized g; g_lock_initialized := g_lock_initialized g;
     g_symbol_table := g_symbol_table g; g_symbol_count := g_symbol_count g;
     g_image_base := g_image_base g; g_runtime_base := v;
     parse_runs := parse_runs g |}.

Definition count_parse_run (g : globals) : globals :=
  {| g_initialized := g_initialized g; g_lock_initialized := g_lock_initialized g;
     g_symbol_table := g_symbol_table g; g_symbol_count := g_symbol_count g;
     g_image_base := g_image_base g; g_runtime_base := g_runtime_base g;
     parse_runs := S (parse_runs g) |}.

(** [init_lock]: the compare-exchange stores 1 when it finds 0; the critical
    section itself has no content in a single-threaded run. *)
Definition init_lock (g : globals) : globals :=
  if g_lock_initialized g =? 0 then set_lock_initialized 1 g else g.

(** ** Scanning the raw symbol records *)

(** The loop header and footer shared by both passes:
    [i += sym->NumberOfAuxSymbols] in the body, then [i++], on a [DWORD]. *)
Definition next_index (i : Z) (sym : COFF_SYMBOL) : Z :=
  wrap32 (wrap32 (i + byte_val (NumberOfAuxSymbols sym)) + 1).

(** Every iteration of a scan that ends reads a different index below
    [NumberOfSymbols] (the next index is a function of the current one, so a
    repeated index repeats for ever); [S NumberOfSymbols] steps are therefore
    enough for every scan that ends, and running out of them is [None]
    (lemma [scan_fuel_enough]). *)
Definition scan_fuel (img : pe_image) : nat := S (Z.to_nat (NumberOfSymbols img)).

(** Pass one: "Count text symbols first".  [func_count] is a [size_t] that
    grows by at most one per iteration; a scan that ends has fewer than
    [2^32] iterations, so the counter stays in range and no wrap-around is
    written for it (the same holds for [idx] in pass two). *)
Fixpoint count_loop (img : pe_image) (fuel : nat) (i func_count : Z) : option Z :=
  match fuel with
  | O => None
  | S fuel' =>
      if i <? NumberOfSymbols img then
        let sym := symbols img i in
        let func_count :=
          if is_text_symbol sym (sections img) (NumberOfSections img)
          then func_count + 1 else func_count in
        count_loop img fuel' (next_index i sym) func_count
      else Some func_count
  end.

Definition count_text_symbols (img : pe_image) : option Z :=
  count_loop img (scan_fuel img) 0 0.

(** The local buffer [name] of pass two: the string-table entry cut to 255
    characters when [Zeros] is 0, else the eight inline bytes (followed by
    the NUL stored at [name[8]]). *)
Definition symbol_name (img : pe_image) (sym : COFF_SYMBOL) : list ascii :=
  if Zeros sym =? 0
  then strncpy_mem (string_table img) (Offset sym) 255
  else ShortName sym.

(** [rva] is the sum of two [DWORD]s, formed in 32 bits before it is widened;
    the runtime address adds the load base in 64 bits.  [section_idx] is not
    truncated: the section number of a text symbol is positive. *)
Definition symbol_rva (img : pe_image) (sym : COFF_SYMBOL) : Z :=
  wrap32 (VirtualAddress (sections img (SectionNumber sym - 1)) + Value sym).

Definition make_entry (img : pe_image) (runtime_base : Z) (sym : COFF_SYMBOL)
    : symbol_entry_t :=
  {| address := wrap64 (runtime_base + symbol_rva img sym);
     name := strncpy 255 (symbol_name img sym) |}.

(** Pass two: "Fill symbol table".  [tbl] holds [g_symbol_table[0..idx-1]]. *)
Fixpoint fill_loop (img : pe_image) (runtime_base func_count : Z) (fuel : nat)
    (i idx : Z) (tbl : list symbol_entry_t) : option (Z * list symbol_entry_t) :=
  match fuel with
  | O => None
  | S fuel' =>
      if (i <? NumberOfSymbols img) && (idx <? func_count) then
        let sym := symbols img i in
        if negb (is_text_symbol sym (sections img) (NumberOfSections img)) then
          fill_loop img runtime_base func_count fuel' (next_index i sym) idx tbl
        else
          let name := symbol_name img sym in
          if Ascii.eqb (first_char name) "."%char then
            fill_loop img runtime_base func_count fuel' (next_index i sym) idx tbl
          else
            fill_loop img runtime_base func_count fuel' (next_index i sym)
                      (idx + 1) (tbl ++ [make_entry img runtime_base sym])
      else Some (idx, tbl)
  end.

Definition fill_symbol_table (img : pe_image) (runtime_base func_count : Z)
    : option (Z * list symbol_entry_t) :=
  fill_loop img runtime_base func_count (scan_fuel img) 0 0 [].

Section Program.
Context {libc : Libc}.

Definition parse_coff_symbols (p : process) (g0 : globals)
    : option (Z * globals) :=
  let g := count_parse_run g0 in
  if (path_len p =? 0) || (MAX_PATH <=? path_len p) then Some (-1, g) else
  let g := set_runtime_base (exe_module p) g in
  if negb (file_opened p) then Some (-1, g) else
  if negb (mapping_created p) then Some (-1, g) else
  if negb (view_mapped p) then Some (-1, g) else
  let img := image p in
  if negb (e_magic img =? IMAGE_DOS_SIGNATURE) then Some (-1, g) else
  if negb (Signature img =? IMAGE_NT_SIGNATURE) then Some (-1, g) else
  let g := set_image_base (ImageBase img) g in
  let symbol_table_offset := PointerToSymbolTable img in
  let symbol_count := NumberOfSymbols img in
  if (symbol_table_offset =? 0) || (symbol_count =? 0) then Some (0, g) else
  match count_text_symbols img with
  | None => None
  | Some func_count =>
      if func_count =? 0 then Some (0, g) else
      if negb (malloc_succeeds p) then Some (-1, set_symbol_table None g) else
      match fill_symbol_table img (g_runtime_base g) func_count with
      | None => None
      | Some (idx, tbl) =>
          Some (0, set_symbol_table (Some (qsort compare_symbols tbl))
                     (set_symbol_count idx g))
      end
  end.

Definition ensure_initialized (p : process) (g0 : globals)
    : option (Z * globals) :=
  let g := init_lock g0 in
  if negb (g_initialized g =? 0) then Some (0, g) else
  (* EnterCriticalSection *)
  if negb (g_initialized g =? 0) then Some (0, g) else
  match parse_coff_symbols p g with
  | None => None
  | Some (result, g') => Some (result, set_initialized 1 g')
  end.

Definition unw_windows_sym_init (p : process) (g : globals)
    : option (Z * globals) :=
  ensure_initialized p g.

End Program.

Definition unw_windows_sym_cleanup (g : globals) : globals :=
  if negb (g_initialized g =? 0) then
    (* EnterCriticalSection *)
    if negb (g_initialized g =? 0) then
      set_initialized 0 (set_symbol_count 0 (set_symbol_table None g))
    else g
  else g.

(** ** Lookup *)

(** The [while (low < high)] loop of [find_symbol].  [high - low] shrinks in
    every iteration, so [fuel >= high - low] iterations always reach the
    exit.  A read outside the entries ([None] from [nth_error]) does not
    happen while [g_symbol_count] is the number of entries. *)
Fixpoint find_loop (tbl : list symbol_entry_t) (addr : Z) (fuel : nat)
    (low high : Z) (best : option symbol_entry_t) : option symbol_entry_t :=
  if low <? high then
    match fuel with
    | O => best
    | S fuel' =>
        let mid := low + (high - low) / 2 in
        match nth_error tbl (Z.to_nat mid) with
        | Some e =>
            if address e <=? addr
            then find_loop tbl addr fuel' (mid + 1) high (Some e)
            else find_loop tbl addr fuel' low mid best
        | None => None
        end
    end
  else best.

Definition PROXIMITY : Z := 0x100000.

Definition find_symbol (g : globals) (addr : Z) : option symbol_entry_t :=
  match g_symbol_table g with
  | None => None
  | Some tbl =>
      if g_symbol_count g =? 0 then None else
      match find_loop tbl addr (Z.to_nat (g_symbol_count g))
                      0 (g_symbol_count g) None with
      | Some best =>
          if wrap64 (addr - address best) <? PROXIMITY then Some best else None
      | None => None
      end
  end.

(** A non-NULL [unw_cursor_t *]: what [unw_get_reg(cursor, UNW_REG_IP, &ip)]
    returns and the value it stores in [ip]. *)
Record unw_cursor_t : Type := {
  get_reg_ret : Z;
  reg_ip : Z               (* unw_word_t *)
}.

(** What a call leaves behind: the return value, the caller's buffer, the
    caller's [*offp] and the globals.  Pointers are options ([None] is NULL). *)
Record proc_name_result : Type := {
  rv : Z;
  out_buf : option (list ascii);
  out_off : option Z;
  out_globals : globals
}.

(** [memcpy(buf, name, name_len); buf[name_len] = '\0']. *)
Definition store_name (buf name : list ascii) (name_len : Z) : list ascii :=
  firstn (Z.to_nat name_len) name ++ NUL :: skipn (Z.to_nat name_len + 1) buf.

Section Resolver.
Context {libc : Libc}.

Definition unw_get_proc_name_windows (p : process)
    (cursor : option unw_cursor_t) (buf : option (list ascii)) (buf_len : Z)
    (offp : option Z) (g : globals) : option proc_name_result :=
  let fail (code : Z) (g' : globals) :=
    Some {| rv := code; out_buf := buf; out_off := offp; out_globals := g' |} in
  match cursor, buf with
  | Some c, Some b =>
      if buf_len =? 0 then fail UNW_EUNSPEC g else
      match ensure_initialized p g with
      | None => None
      | Some (r, g') =>
          if negb (r =? 0) then fail UNW_EUNSPEC g' else
          if negb (get_reg_ret c =? 0) then fail UNW_EUNSPEC g' else
          let ip := reg_ip c in
          if ip =? 0 then fail UNW_ENOINFO g' else
          match find_symbol g' ip with
          | None => fail UNW_ENOINFO g'
          | Some sym =>
              let name_len := strlen (name sym) in
              let name_len :=
                if buf_len <=? name_len then buf_len - 1 else name_len in
              Some {| rv := 0;
                      out_buf := Some (store_name b (name sym) name_len);
                      out_off :=
                        match offp with
                        | Some _ => Some (wrap64 (ip - address sym))
                        | None => None
                        end;
                      out_globals := g' |}
          end
      end
  | _, _ => fail UNW_EUNSPEC g
  end.

End Resolver.

(** ** A conforming [qsort] and a small image, for concrete runs *)

Fixpoint insert_by (cmp : symbol_entry_t -> symbol_entry_t -> Z)
    (x : symbol_entry_t) (l : list symbol_entry_t) : list symbol_entry_t :=
  match l with
  | [] => [x]
  | y :: l' => if cmp x y <=? 0 then x :: l else y :: insert_by cmp x l'
  end.

Definition insertion_sort (cmp : symbol_entry_t -> symbol_entry_t -> Z)
    (l : list symbol_entry_t) : list symbol_entry_t :=
  fold_right (insert_by cmp) [] l.

(** Little-endian value of up to four characters. *)
Fixpoint le_bytes (l : list ascii) : Z :=
  match l with
  | [] => 0
  | c :: l' => Z.of_N (N_of_ascii c) + 256 * le_bytes l'
  end.

Definition chars (s : String.string) : list ascii := String.list_ascii_of_string s.
Arguments chars s%_string.

(** A record whose name is stored inline (at most eight characters). *)
Definition short_symbol (s : String.string) (value section type : Z)
    (storage aux : byte) : COFF_SYMBOL :=
  {| Zeros := le_bytes (firstn 4 (chars s));
     Offset := le_bytes (firstn 4 (skipn 4 (chars s)));
     Value := value; SectionNumber := section; Type_ := type;
     StorageClass := storage; NumberOfAuxSymbols := aux |}.

Arguments short_symbol s%_string value section type storage aux.

(** A record whose name is in the string table. *)
Definition long_symbol (offset value section type : Z) (storage aux : byte)
    : COFF_SYMBOL :=
  {| Zeros := 0; Offset := offset;
     Value := value; SectionNumber := section; Type_ := type;
     StorageClass := storage; NumberOfAuxSymbols := aux |}.

Definition text_section : IMAGE_SECTION_HEADER :=
  {| VirtualAddress := 0x1000; Characteristics := 0x60000020 |}.
Definition data_section : IMAGE_SECTION_HEADER :=
  {| VirtualAddress := 0x3000; Characteristics := 0xC0000040 |}.

(** Five raw records: the section symbol [.text] with one auxiliary record
    (whose bytes would read as a function [bogus]), the function [main], the
    data object [counter], and the function [resolve_symbol_name] whose name
    is in the string table and which lies below [main]. *)
Definition demo_symbols : list COFF_SYMBOL :=
  [ short_symbol ".text" 0 1 0 x03 x01;
    short_symbol "bogus" 0x10 1 0x20 x02 x00;
    short_symbol "main" 0x100 1 0x20 x02 x00;
    short_symbol "counter" 0 2 0 x02 x00;
    long_symbol 4 0x40 1 0x20 x02 x00 ].

Definition demo_strings : list ascii :=
  [ "024"%char; NUL; NUL; NUL ] ++ chars "resolve_symbol_name" ++ [ NUL ].

Definition demo_image : pe_image :=
  {| e_magic := IMAGE_DOS_SIGNATURE; Signature := IMAGE_NT_SIGNATURE;
     ImageBase := 0x140000000;
     PointerToSymbolTable := 0x800; NumberOfSymbols := 5;
     NumberOfSections := 2;
     sections := array_of data_section [ text_section; data_section ];
     symbols := array_of (long_symbol 0 0 0 0 x00 x00) demo_symbols;
     string_table := array_of NUL demo_strings |}.

Definition demo_process : process :=
  {| path_len := 24; exe_module := 0x7ff600000000;
     file_opened := true; mapping_created := true; view_mapped := true;
     image := demo_image; malloc_succeeds := true |}.

(** ** Reference notions used by the statements *)

(** The primary records that the loop header of the two passes visits from
    index [i] on, in order ([None]: the index never leaves the table). *)
Fixpoint scan (img : pe_image) (fuel : nat) (i : Z) : option (list COFF_SYMBOL) :=
  match fuel with
  | O => None
  | S fuel' =>
      if i <? NumberOfSymbols img then
        match scan img fuel' (next_index i (symbols img i)) with
        | Some recs => Some (symbols img i :: recs)
        | None => None
        end
      else Some []
  end.

(** The indices at which [scan] reads a primary record. *)
Fixpoint scan_indices (img : pe_image) (fuel : nat) (i : Z) : option (list Z) :=
  match fuel with
  | O => None
  | S fuel' =>
      if i <? NumberOfSymbols img then
        match scan_indices img fuel' (next_index i (symbols img i)) with
        | Some l => Some (i :: l)
        | None => None
        end
      else Some []
  end.

(** The raw 18-byte records of the table, primary and auxiliary alike. *)
Definition raw_records (img : pe_image) : list COFF_SYMBOL :=
  map (fun k => symbols img (Z.of_nat k)) (seq 0 (Z.to_nat (NumberOfSymbols img))).

(** The primary records of a raw table, by the format's rule: a primary
    record is followed by [NumberOfAuxSymbols] auxiliary records, the next
    primary record comes after them.  ([fuel] bounds the recursion; the
    length of the table is enough.) *)
Fixpoint primaries (fuel : nat) (raw : list COFF_SYMBOL) : list COFF_SYMBOL :=
  match fuel, raw with
  | S fuel', sym :: rest =>
      sym :: primaries fuel' (skipn (Z.to_nat (byte_val (NumberOfAuxSymbols sym))) rest)
  | _, _ => []
  end.

Definition primary_records (raw : list COFF_SYMBOL) : list COFF_SYMBOL :=
  primaries (length raw) raw.

(** What pass one counts. *)
Definition is_text (img : pe_image) (sym : COFF_SYMBOL) : bool :=
  is_text_symbol sym (sections img) (NumberOfSections img).

(** The internal marker: the name begins with a dot. *)
Definition is_internal (img : pe_image) (sym : COFF_SYMBOL) : bool :=
  Ascii.eqb (first_char (symbol_name img sym)) "."%char.

(** What pass two stores: a text symbol whose name is not internal. *)
Definition qualifies (img : pe_image) (sym : COFF_SYMBOL) : bool :=
  is_text img sym && negb (is_internal img sym).

Definition address_le (a b : symbol_entry_t) : Prop := address a <= address b.

(** An entry as pass two writes it: a 64-bit address and a name of at most
    255 characters, none of them NUL. *)
Definition entry_ok (e : symbol_entry_t) : Prop :=
  0 <= address e < 2 ^ 64 /\
  Forall (fun c => is_NUL c = false) (name e) /\
  (length (name e) <= 255)%nat.

(** The relation between the table pointer, the count and the entries that
    every entry point maintains. *)
Definition table_ok (g : globals) : Prop :=
  match g_symbol_table g with
  | None => g_symbol_count g = 0
  | Some tbl =>
      g_symbol_count g = Z.of_nat (length tbl) /\
      StronglySorted address_le tbl /\
      Forall entry_ok tbl
  end.

Definition globals_ok (g : globals) : Prop :=
  table_ok g /\
  (g_initialized g = 0 -> g_symbol_table g = None) /\
  (g_initialized g <> 0 -> g_lock_initialized g <> 0).

(** The entries of pass two for the primary records [recs], before sorting. *)
Definition built_entries (img : pe_image) (runtime_base : Z)
    (recs : list COFF_SYMBOL) : list symbol_entry_t :=
  map (make_entry img runtime_base) (filter (qualifies img) recs).

(** The states a single-threaded client can bring the module to. *)
Inductive reachable {libc : Libc} : globals -> Prop :=
  | reach_start : reachable initial_globals
  | reach_init : forall p g r g',
      reachable g -> unw_windows_sym_init p g = Some (r, g') -> reachable g'
  | reach_cleanup : forall g,
      reachable g -> reachable (unw_windows_sym_cleanup g)
  | reach_resolve : forall p cursor buf buf_len offp g res,
      reachable g ->
      unw_get_proc_name_windows p cursor buf buf_len offp g = Some res ->
      reachable (out_globals res).

(** The string now in a caller's buffer. *)
Definition buffer_string (buf : option (list ascii)) : list ascii :=
  match buf with
  | Some b => c_str b
  | None => []
  end.

(** The exit state of the loop: [k] entries lie at or below [addr], the rest
    above, and [best] is the last of the [k]. *)
Definition floor_at (tbl : list symbol_entry_t) (addr : Z) (k : nat)
    (best : option symbol_entry_t) : Prop :=
  (k <= length tbl)%nat /\
  (forall j e, (j < k)%nat -> nth_error tbl j = Some e -> address e <= addr) /\
  (forall j e, (k <= j)%nat -> nth_error tbl j = Some e -> addr < address e) /\
  best = match k with O => None | S k' => nth_error tbl k' end.

(** The conditions under which [parse_coff_symbols] gets as far as reading
    the symbol-table fields of the file header: the path fits, the file opens
    and maps, and both signatures are the expected ones. *)
Definition image_accessible (p : process) : Prop :=
  path_len p <> 0 /\ path_len p < MAX_PATH /\
  file_opened p = true /\ mapping_created p = true /\ view_mapped p = true /\
  e_magic (image p) = IMAGE_DOS_SIGNATURE /\
  Signature (image p) = IMAGE_NT_SIGNATURE.

(** One later call of the resolver with usable arguments: a cursor whose
    instruction pointer can be read, a buffer and its length. *)
Record resolve_call : Type := {
  rc_process : process;
  rc_cursor : unw_cursor_t;
  rc_buf : list ascii;
  rc_buf_len : Z;
  rc_offp : option Z
}.

Definition usable (c : resolve_call) : Prop :=
  get_reg_ret (rc_cursor c) = 0 /\ rc_buf_len c <> 0.

Section Calls.
Context {libc : Libc}.

(** A sequence of resolver calls, each starting from the globals the
    previous one left. *)
Fixpoint resolve_all (calls : list resolve_call) (g : globals)
    : option (list proc_name_result) :=
  match calls with
  | [] => Some []
  | c :: rest =>
      match unw_get_proc_name_windows (rc_process c) (Some (rc_cursor c))
              (Some (rc_buf c)) (rc_buf_len c) (rc_offp c) g with
      | None => None
      | Some res =>
          match resolve_all rest (out_globals res) with
          | Some l => Some (res :: l)
          | None => None
          end
      end
  end.

End Calls.

(** ** Concrete processes and states used by the examples *)

(** A cursor whose instruction pointer reads as [ip]. *)
Definition cursor_at (ip : Z) : unw_cursor_t := {| get_reg_ret := 0; reg_ip := ip |}.

(** The globals after the first [unw_windows_sym_init] of [demo_process]. *)
Definition demo_ready : globals :=
  {| g_initialized := 1; g_lock_initialized := 1;
     g_symbol_table :=
       Some [ {| address := 0x7ff600001040; name := chars "resolve_symbol_name" |};
              {| address := 0x7ff600001100; name := chars "main" |} ];
     g_symbol_count := 2;
     g_image_base := 0x140000000; g_runtime_base := 0x7ff600000000;
     parse_runs := 1 |}.

(** What the resolver returns for an address inside [resolve_symbol_name],
    eight bytes of buffer, right after a cleanup of [demo_ready]. *)
Definition demo_after_cleanup : proc_name_result :=
  {| rv := 0;
     out_buf := Some (chars "resolve" ++ [ NUL ]);
     out_off := Some 0x10;
     out_globals :=
       {| g_initialized := 1; g_lock_initialized := 1;
          g_symbol_table := g_symbol_table demo_ready;
          g_symbol_count := 2;
          g_image_base := 0x140000000; g_runtime_base := 0x7ff600000000;
          parse_runs := 2 |} |}.

(** An image without embedded symbols. *)
Definition stripped_image : pe_image :=
  {| e_magic := IMAGE_DOS_SIGNATURE; Signature := IMAGE_NT_SIGNATURE;
     ImageBase := 0x140000000;
     PointerToSymbolTable := 0; NumberOfSymbols := 0;
     NumberOfSections := 2;
     sections := array_of data_section [ text_section; data_section ];
     symbols := array_of (long_symbol 0 0 0 0 x00 x00) [];
     string_table := array_of NUL [] |}.

Definition stripped_process : process :=
  {| path_len := 24; exe_module := 0x7ff600000000;
     file_opened := true; mapping_created := true; view_mapped := true;
     image := stripped_image; malloc_succeeds := true |}.

(** An image whose code section has a virtual address close to the top of
    the 32-bit range, so that adding a symbol value leaves the range. *)
Definition high_section_image : pe_image :=
  {| e_magic := IMAGE_DOS_SIGNATURE; Signature := IMAGE_NT_SIGNATURE;
     ImageBase := 0x140000000;
     PointerToSymbolTable := 0x400; NumberOfSymbols := 1;
     NumberOfSections := 1;
     sections := array_of data_section
                   [ {| VirtualAddress := 0xFFFFF000; Characteristics := 0x60000020 |} ];
     symbols := array_of (long_symbol 0 0 0 0 x00 x00)
                  [ short_symbol "f" 0x2000 1 0x20 x02 x00 ];
     string_table := array_of NUL [] |}.

Definition high_section_process : process :=
  {| path_len := 24; exe_module := 0x7ff600000000;
     file_opened := true; mapping_created := true; view_mapped := true;
     image := high_section_image; malloc_succeeds := true |}.

Definition high_section_ready : globals :=
  {| g_initialized := 1; g_lock_initialized := 1;
     g_symbol_table := Some [ {| address := 0x7ff600001000; name := chars "f" |} ];
     g_symbol_count := 1;
     g_image_base := 0x140000000; g_runtime_base := 0x7ff600000000;
     parse_runs := 1 |}.

(** A table of [2^32 - 1] raw records, each announcing 255 auxiliary
    records. *)
Definition all_aux_image : pe_image :=
  {| e_magic := IMAGE_DOS_SIGNATURE; Signature := IMAGE_NT_SIGNATURE;
     ImageBase := 0x140000000;
     PointerToSymbolTable := 0x400; NumberOfSymbols := 2 ^ 32 - 1;
     NumberOfSections := 1;
     sections := array_of data_section [ text_section ];
     symbols := fun _ => short_symbol "f" 0x10 1 0x20 x02 xff;
     string_table := array_of NUL [] |}.

Definition all_aux_process : process :=
  {| path_len := 24; exe_module := 0x7ff600000000;
     file_opened := true; mapping_created := true; view_mapped := true;
     image := all_aux_image; malloc_succeeds := true |}.

(** [demo_process] started from a path that does not fit in [MAX_PATH]
    characters: [GetModuleFileNameA] fills the buffer and returns [MAX_PATH]. *)
Definition long_path_process : process :=
  {| path_len := 260; exe_module := 0x7ff600000000;
     file_opened := true; mapping_created := true; view_mapped := true;
     image := demo_image; malloc_succeeds := true |}.

Definition failed_globals : globals :=
  {| g_initialized := 1; g_lock_initialized := 1; g_symbol_table := None;
     g_symbol_count := 0; g_image_base := 0; g_runtime_base := 0;
     parse_runs := 1 |}.

(** ** Further notions: the other entry points, reference searches *)

Section EntryPoints.
Context {libc : Libc}.

(** The four symbols through which libunwind reaches the resolver. *)
Definition _Ux86_64_get_proc_name (p : process) (cursor : option unw_cursor_t)
    (buf : option (list ascii)) (buf_len : Z) (offp : option Z) (g : globals)
    : option proc_name_result :=
  unw_get_proc_name_windows p cursor buf buf_len offp g.

Definition __wrap__Ux86_64_get_proc_name (p : process)
    (cursor : option unw_cursor_t) (buf : option (list ascii)) (buf_len : Z)
    (offp : option Z) (g : globals) : option proc_name_result :=
  unw_get_proc_name_windows p cursor buf buf_len offp g.

Definition __unw_get_proc_name (p : process) (cursor : option unw_cursor_t)
    (buf : option (list ascii)) (buf_len : Z) (offp : option Z) (g : globals)
    : option proc_name_result :=
  unw_get_proc_name_windows p cursor buf buf_len offp g.

Definition unw_get_proc_name (p : process) (cursor : option unw_cursor_t)
    (buf : option (list ascii)) (buf_len : Z) (offp : option Z) (g : globals)
    : option proc_name_result :=
  unw_get_proc_name_windows p cursor buf buf_len offp g.

(** A sequence of calls of [unw_windows_sym_init], each starting from the
    globals the previous one left; the list holds the return values. *)
Fixpoint init_all (ps : list process) (g : globals) : option (list Z * globals) :=
  match ps with
  | [] => Some ([], g)
  | p :: rest =>
      match unw_windows_sym_init p g with
      | None => None
      | Some (r, g') =>
          match init_all rest g' with
          | Some (rs, g'') => Some (r :: rs, g'')
          | None => None
          end
      end
  end.

End EntryPoints.

(** The last entry, in table order, whose address does not exceed [addr]:
    the answer of a search that looks at every entry. *)
Fixpoint linear_floor (tbl : list symbol_entry_t) (addr : Z)
    (best : option symbol_entry_t) : option symbol_entry_t :=
  match tbl with
  | [] => best
  | e :: rest =>
      linear_floor rest addr (if address e <=? addr then Some e else best)
  end.

(** The number of iterations of the [while (low < high)] loop of
    [find_symbol]: the loop of [find_loop] with a counter in place of
    [best]. *)
Fixpoint find_loop_steps (tbl : list symbol_entry_t) (addr : Z) (fuel : nat)
    (low high : Z) : Z :=
  if low <? high then
    match fuel with
    | O => 0
    | S fuel' =>
        let mid := low + (high - low) / 2 in
        match nth_error tbl (Z.to_nat mid) with
        | Some e =>
            if address e <=? addr
            then 1 + find_loop_steps tbl addr fuel' (mid + 1) high
            else 1 + find_loop_steps tbl addr fuel' low mid
        | None => 1
        end
    end
  else 0.

(** [demo_image] with other bytes after the last raw record and after the
    last section header. *)
Definition demo_image_other_tail : pe_image :=
  {| e_magic := IMAGE_DOS_SIGNATURE; Signature := IMAGE_NT_SIGNATURE;
     ImageBase := 0x140000000;
     PointerToSymbolTable := 0x800; NumberOfSymbols := 5;
     NumberOfSections := 2;
     sections := array_of text_section [ text_section; data_section ];
     symbols := array_of (short_symbol "tail" 0x20 1 0x20 x02 x07) demo_symbols;
     string_table := array_of NUL demo_strings |}.

(** [demo_process] when the allocator has no memory left. *)
Definition no_memory_process : process :=
  {| path_len := 24; exe_module := 0x7ff600000000;
     file_opened := true; mapping_created := true; view_mapped := true;
     image := demo_image; malloc_succeeds := false |}.

(** An image whose only symbols are data objects. *)
Definition data_only_image : pe_image :=
  {| e_magic := IMAGE_DOS_SIGNATURE; Signature := IMAGE_NT_SIGNATURE;
     ImageBase := 0x140000000;
     PointerToSymbolTable := 0x800; NumberOfSymbols := 2;
     NumberOfSections := 2;
     sections := array_of data_section [ text_section; data_section ];
     symbols := array_of (long_symbol 0 0 0 0 x00 x00)
                  [ short_symbol "counter" 0 2 0 x02 x00;
                    short_symbol "limit" 8 2 0 x03 x00 ];
     string_table := array_of NUL [] |}.

Definition data_only_process : process :=
  {| path_len := 24; exe_module := 0x7ff600000000;
     file_opened := true; mapping_created := true; view_mapped := true;
     image := data_only_image; malloc_succeeds := true |}.

(** Two images that differ only outside the tables the header announces. *)
Definition same_tables (img img' : pe_image) : Prop :=
  NumberOfSymbols img = NumberOfSymbols img' /\
  NumberOfSections img = NumberOfSections img' /\
  (forall i, 0 <= i < NumberOfSymbols img -> symbols img i = symbols img' i) /\
  (forall k, 0 <= k < NumberOfSections img -> sections img k = sections img' k) /\
  (forall p, string_table img p = string_table img' p).

(** What the resolver returns in [demo_ready] for the address of [main] and
    a buffer of three bytes. *)
Definition demo_hit : proc_name_result :=
  {| rv := 0; out_buf := Some [ "m"%char; "a"%char; NUL ];
     out_off := Some 0; out_globals := demo_ready |}.

(** A usable call for an address inside [main]. *)
Definition demo_call : resolve_call :=
  {| rc_process := demo_process; rc_cursor := cursor_at 0x7ff600001108;
     rc_buf := chars "xyz"; rc_buf_len := 3; rc_offp := None |}.

(** * Properties *)

(** ** Arithmetic and strings *)

Lemma wrap32_small (z : Z) : 0 <= z < 2 ^ 32 -> wrap32 z = z.
Proof. intros H. unfold wrap32. apply Z.mod_small. exact H. Qed.

Lemma wrap64_small (z : Z) : 0 <= z < 2 ^ 64 -> wrap64 z = z.
Proof. intros H. unfold wrap64. apply Z.mod_small. exact H. Qed.

Lemma wrap32_range (z : Z) : 0 <= wrap32 z < 2 ^ 32.
Proof. unfold wrap32. apply Z.mod_pos_bound. lia. Qed.

Lemma wrap64_range (z : Z) : 0 <= wrap64 z < 2 ^ 64.
Proof. unfold wrap64. apply Z.mod_pos_bound. lia. Qed.

Lemma byte_val_range (b : byte) : 0 <= byte_val b <= 255.
Proof.
  unfold byte_val. pose proof (Byte.to_N_bounded b) as H. lia.
Qed.

Lemma next_index_small (i : Z) (sym : COFF_SYMBOL) :
  0 <= i -> i + 256 <= 2 ^ 32 - 1 ->
  next_index i sym = i + 1 + byte_val (NumberOfAuxSymbols sym).
Proof.
  intros H0 H1. unfold next_index.
  pose proof (byte_val_range (NumberOfAuxSymbols sym)) as Hb.
  rewrite (wrap32_small (i + _)) by lia.
  rewrite wrap32_small by lia. lia.
Qed.

Lemma c_str_no_NUL (l : list ascii) : Forall (fun c => is_NUL c = false) (c_str l).
Proof.
  induction l as [|c l IH]; simpl; [constructor|].
  destruct (is_NUL c) eqn:E; [constructor|]. constructor; assumption.
Qed.

Lemma c_str_length (l : list ascii) : (length (c_str l) <= length l)%nat.
Proof.
  induction l as [|c l IH]; simpl; [lia|].
  destruct (is_NUL c); simpl; lia.
Qed.

Lemma c_str_prefix (l : list ascii) : exists rest, l = c_str l ++ rest.
Proof.
  induction l as [|c l [rest IH]]; simpl.
  - exists []. reflexivity.
  - destruct (is_NUL c).
    + exists (c :: l). reflexivity.
    + exists rest. simpl. f_equal. exact IH.
Qed.

(** A string without NUL, followed by NUL, reads back as itself. *)
Lemma c_str_app_NUL (w rest : list ascii) :
  Forall (fun c => is_NUL c = false) w -> c_str (w ++ NUL :: rest) = w.
Proof.
  induction 1 as [|c w Hc Hw IH]; simpl.
  - reflexivity.
  - rewrite Hc. f_equal. exact IH.
Qed.

Lemma Forall_firstn {A : Type} (P : A -> Prop) (n : nat) (l : list A) :
  Forall P l -> Forall P (firstn n l).
Proof.
  intros H. revert n. induction H as [|x l Hx Hl IH]; intros [|n]; simpl;
    constructor; auto.
Qed.

(** ** The two passes visit the same primary records *)

Lemma scan_step (img : pe_image) (fuel : nat) (i : Z) :
  scan img (S fuel) i =
  if i <? NumberOfSymbols img then
    match scan img fuel (next_index i (symbols img i)) with
    | Some recs => Some (symbols img i :: recs)
    | None => None
    end
  else Some [].
Proof. reflexivity. Qed.

Lemma count_loop_step (img : pe_image) (fuel : nat) (i c : Z) :
  count_loop img (S fuel) i c =
  if i <? NumberOfSymbols img then
    count_loop img fuel (next_index i (symbols img i))
      (if is_text img (symbols img i) then c + 1 else c)
  else Some c.
Proof. reflexivity. Qed.

Lemma fill_loop_step (img : pe_image) (base func_count : Z) (fuel : nat)
    (i idx : Z) (tbl : list symbol_entry_t) :
  fill_loop img base func_count (S fuel) i idx tbl =
  if (i <? NumberOfSymbols img) && (idx <? func_count) then
    if negb (is_text img (symbols img i)) then
      fill_loop img base func_count fuel (next_index i (symbols img i)) idx tbl
    else if is_internal img (symbols img i) then
      fill_loop img base func_count fuel (next_index i (symbols img i)) idx tbl
    else
      fill_loop img base func_count fuel (next_index i (symbols img i)) (idx + 1)
        (tbl ++ [make_entry img base (symbols img i)])
  else Some (idx, tbl).
Proof. reflexivity. Qed.

Lemma filter_cons_eq {A : Type} (f : A -> bool) (x : A) (l : list A) :
  filter f (x :: l) = if f x then x :: filter f l else filter f l.
Proof. reflexivity. Qed.

Lemma qualifies_eq (img : pe_image) (sym : COFF_SYMBOL) :
  qualifies img sym = is_text img sym && negb (is_internal img sym).
Proof. reflexivity. Qed.

Lemma count_loop_scan (img : pe_image) (fuel : nat) :
  forall i c,
    count_loop img fuel i c =
    match scan img fuel i with
    | Some recs => Some (c + Z.of_nat (length (filter (is_text img) recs)))
    | None => None
    end.
Proof.
  induction fuel as [|fuel IH]; intros i c; [reflexivity|].
  rewrite count_loop_step, scan_step.
  destruct (i <? NumberOfSymbols img); [|f_equal; simpl; lia].
  rewrite IH.
  destruct (scan img fuel (next_index i (symbols img i))) as [recs|]; [|reflexivity].
  rewrite filter_cons_eq.
  destruct (is_text img (symbols img i)); simpl length; f_equal; lia.
Qed.

Lemma filter_qualifies_length (img : pe_image) (recs : list COFF_SYMBOL) :
  (length (filter (qualifies img) recs) <= length (filter (is_text img) recs))%nat.
Proof.
  induction recs as [|s recs IH]; [simpl; lia|].
  rewrite !filter_cons_eq, qualifies_eq.
  destruct (is_text img s); simpl andb; [|exact IH].
  destruct (negb (is_internal img s)); simpl length; lia.
Qed.

Lemma fill_loop_scan (img : pe_image) (base func_count : Z) (fuel : nat) :
  forall i idx tbl recs,
    scan img fuel i = Some recs ->
    idx + Z.of_nat (length (filter (is_text img) recs)) <= func_count ->
    fill_loop img base func_count fuel i idx tbl =
    Some (idx + Z.of_nat (length (filter (qualifies img) recs)),
          tbl ++ map (make_entry img base) (filter (qualifies img) recs)).
Proof.
  induction fuel as [|fuel IH]; intros i idx tbl recs Hscan Hcap;
    [discriminate|].
  rewrite scan_step in Hscan. rewrite fill_loop_step.
  destruct (i <? NumberOfSymbols img) eqn:Hi.
  - destruct (scan img fuel (next_index i (symbols img i))) as [recs'|] eqn:Hs;
      [|discriminate].
    injection Hscan as <-.
    rewrite filter_cons_eq in Hcap. rewrite !filter_cons_eq, qualifies_eq.
    pose proof (filter_qualifies_length img recs') as Hq.
    destruct (idx <? func_count) eqn:Hidx; simpl andb.
    + destruct (is_text img (symbols img i)); simpl negb; simpl andb;
        simpl length in Hcap; cbv iota.
      * destruct (is_internal img (symbols img i)); simpl negb; cbv iota.
        -- apply IH; [exact Hs | lia].
        -- rewrite (IH _ _ _ recs' Hs) by lia.
           rewrite <- app_assoc. simpl. f_equal. f_equal. lia.
      * apply IH; [exact Hs | lia].
    + apply Z.ltb_ge in Hidx.
      destruct (is_text img (symbols img i)); simpl andb;
        simpl length in Hcap; [lia|].
      assert (length (filter (qualifies img) recs') = 0%nat) as H1 by lia.
      apply length_zero_iff_nil in H1. rewrite H1. simpl.
      rewrite app_nil_r. f_equal. f_equal. lia.
  - injection Hscan as <-. simpl. rewrite app_nil_r. f_equal. f_equal. lia.
Qed.

(** ** The step bound of the scan is exact *)

Lemma scan_indices_step (img : pe_image) (fuel : nat) (i : Z) :
  scan_indices img (S fuel) i =
  if i <? NumberOfSymbols img then
    match scan_indices img fuel (next_index i (symbols img i)) with
    | Some l => Some (i :: l)
    | None => None
    end
  else Some [].
Proof. reflexivity. Qed.

Lemma scan_scan_indices (img : pe_image) (fuel : nat) :
  forall i,
    scan img fuel i =
    match scan_indices img fuel i with
    | Some l => Some (map (symbols img) l)
    | None => None
    end.
Proof.
  induction fuel as [|fuel IH]; intros i; [reflexivity|].
  rewrite scan_step, scan_indices_step.
  destruct (i <? NumberOfSymbols img); [|reflexivity].
  rewrite IH.
  destruct (scan_indices img fuel (next_index i (symbols img i))); reflexivity.
Qed.

(** More steps do not change a scan that has ended. *)
Lemma scan_indices_more (img : pe_image) (n : nat) :
  forall i l m,
    scan_indices img n i = Some l -> (length l < m)%nat ->
    scan_indices img m i = Some l.
Proof.
  induction n as [|n IH]; intros i l m H Hm; [discriminate|].
  rewrite scan_indices_step in H.
  destruct m as [|m]; [lia|]. rewrite scan_indices_step.
  destruct (i <? NumberOfSymbols img); [|exact H].
  destruct (scan_indices img n (next_index i (symbols img i))) as [l'|] eqn:E;
    [|discriminate].
  injection H as <-. simpl in Hm.
  rewrite (IH _ l' m E) by lia. reflexivity.
Qed.

Lemma scan_indices_unique (img : pe_image) (n m : nat) (i : Z) (l1 l2 : list Z) :
  scan_indices img n i = Some l1 -> scan_indices img m i = Some l2 -> l1 = l2.
Proof.
  intros H1 H2.
  pose proof (scan_indices_more img n i l1 (S (length l1 + length l2)) H1 ltac:(lia)) as E1.
  pose proof (scan_indices_more img m i l2 (S (length l1 + length l2)) H2 ltac:(lia)) as E2.
  congruence.
Qed.

(** From every index met, the rest of the scan is a scan of its own, and not
    a longer one. *)
Lemma scan_indices_later (img : pe_image) (n : nat) :
  forall i l j,
    scan_indices img n i = Some l -> In j l ->
    exists m l', scan_indices img m j = Some l' /\ (length l' <= length l)%nat.
Proof.
  induction n as [|n IH]; intros i l j H Hj; [discriminate|].
  pose proof H as H0. rewrite scan_indices_step in H.
  destruct (i <? NumberOfSymbols img); [|injection H as <-; destruct Hj].
  destruct (scan_indices img n (next_index i (symbols img i))) as [l'|] eqn:E;
    [|discriminate].
  injection H as <-. destruct Hj as [<- | Hj].
  - exists (S n), (i :: l'). split; [exact H0|lia].
  - destruct (IH _ l' j E Hj) as (m & l'' & Hm & Hlen).
    exists m, l''. split; [exact Hm|simpl; lia].
Qed.

Lemma scan_indices_NoDup (img : pe_image) (n : nat) :
  forall i l, scan_indices img n i = Some l -> NoDup l.
Proof.
  induction n as [|n IH]; intros i l H; [discriminate|].
  pose proof H as H0. rewrite scan_indices_step in H.
  destruct (i <? NumberOfSymbols img); [|injection H as <-; constructor].
  destruct (scan_indices img n (next_index i (symbols img i))) as [l'|] eqn:E;
    [|discriminate].
  injection H as <-. constructor; [|apply (IH _ _ E)].
  intros Hin.
  destruct (scan_indices_later img n _ l' i E Hin) as (m & l'' & Hm & Hlen).
  pose proof (scan_indices_unique img m (S n) i l'' (i :: l') Hm H0) as Heq.
  subst l''. simpl in Hlen. lia.
Qed.

Lemma scan_indices_range (img : pe_image) (n : nat) :
  forall i l,
    0 <= i -> scan_indices img n i = Some l ->
    Forall (fun j => 0 <= j < NumberOfSymbols img) l.
Proof.
  induction n as [|n IH]; intros i l Hi H; [discriminate|].
  rewrite scan_indices_step in H.
  destruct (i <? NumberOfSymbols img) eqn:Hlt; [|injection H as <-; constructor].
  destruct (scan_indices img n (next_index i (symbols img i))) as [l'|] eqn:E;
    [|discriminate].
  injection H as <-. apply Z.ltb_lt in Hlt. constructor; [lia|].
  apply (IH _ _ (proj1 (wrap32_range _)) E).
Qed.

(** Distinct indices below [n] are at most [n]. *)
Lemma distinct_below (n : Z) (l : list Z) :
  NoDup l -> Forall (fun j => 0 <= j < n) l -> (length l <= Z.to_nat n)%nat.
Proof.
  intros Hnd Hr. rewrite Forall_forall in Hr.
  rewrite <- (length_map Z.to_nat l), <- (length_seq (Z.to_nat n) 0).
  apply NoDup_incl_length.
  - apply NoDup_map_NoDup_ForallPairs; [|exact Hnd].
    intros x y Hx Hy Heq. specialize (Hr x Hx) as Hx'. specialize (Hr y Hy) as Hy'.
    lia.
  - intros k Hk. apply in_map_iff in Hk. destruct Hk as (j & <- & Hj).
    specialize (Hr j Hj). apply in_seq. lia.
Qed.

(** A scan that ends within some number of steps ends within [scan_fuel]
    steps, with the same records: [None] from the bounded scan means that the
    loop does not end. *)
Lemma scan_fuel_enough (img : pe_image) (n : nat) (recs : list COFF_SYMBOL) :
  scan img n 0 = Some recs -> scan img (scan_fuel img) 0 = Some recs.
Proof.
  rewrite !scan_scan_indices.
  destruct (scan_indices img n 0) as [l|] eqn:E; [|discriminate].
  intros H.
  pose proof (distinct_below (NumberOfSymbols img) l
                (scan_indices_NoDup img n 0 l E)
                (scan_indices_range img n 0 l ltac:(lia) E)) as Hlen.
  rewrite (scan_indices_more img n 0 l (scan_fuel img) E)
    by (unfold scan_fuel; lia).
  exact H.
Qed.

Lemma count_text_symbols_exact (img : pe_image) (n : nat) (c : Z) :
  count_loop img n 0 0 = Some c -> count_text_symbols img = Some c.
Proof.
  unfold count_text_symbols. rewrite !count_loop_scan.
  destruct (scan img n 0) as [recs|] eqn:E; [|discriminate].
  rewrite (scan_fuel_enough img n recs E). auto.
Qed.

(** ** The scan steps over auxiliary records *)

Lemma primaries_fuel_irrelevant (n : nat) :
  forall m raw,
    (length raw <= n)%nat -> (length raw <= m)%nat ->
    primaries n raw = primaries m raw.
Proof.
  induction n as [|n IH]; intros m raw Hn Hm.
  - destruct raw; [|simpl in Hn; lia]. destruct m; reflexivity.
  - destruct raw as [|s rest]; [destruct m; reflexivity|].
    destruct m as [|m]; [simpl in Hm; lia|].
    simpl. f_equal. simpl in Hn, Hm.
    pose proof (length_skipn (Z.to_nat (byte_val (NumberOfAuxSymbols s))) rest).
    apply IH; lia.
Qed.

Lemma raw_records_length (img : pe_image) :
  length (raw_records img) = Z.to_nat (NumberOfSymbols img).
Proof. unfold raw_records. rewrite length_map, length_seq. reflexivity. Qed.

Lemma raw_records_nth (img : pe_image) (k : nat) :
  (k < Z.to_nat (NumberOfSymbols img))%nat ->
  nth_error (raw_records img) k = Some (symbols img (Z.of_nat k)).
Proof.
  intros Hk. unfold raw_records. rewrite nth_error_map.
  rewrite (nth_error_nth' _ 0%nat) by (rewrite length_seq; exact Hk).
  rewrite seq_nth by exact Hk. reflexivity.
Qed.

Lemma skipn_nth_error {A : Type} (l : list A) :
  forall n x, nth_error l n = Some x -> skipn n l = x :: skipn (S n) l.
Proof.
  induction l as [|y l IH]; intros [|n] x H; simpl in *; try discriminate.
  - injection H as ->. reflexivity.
  - apply IH. exact H.
Qed.

Lemma skipn_skipn_add {A : Type} (a b : nat) (l : list A) :
  skipn a (skipn b l) = skipn (a + b) l.
Proof.
  revert l. induction b as [|b IH]; intros l.
  - rewrite Nat.add_0_r. reflexivity.
  - rewrite Nat.add_succ_r. destruct l as [|x l]; simpl.
    + apply skipn_nil.
    + apply IH.
Qed.

Lemma scan_primaries_from (img : pe_image) (fuel : nat) :
  NumberOfSymbols img <= 2 ^ 32 - 256 ->
  forall i,
    0 <= i ->
    (Z.to_nat (NumberOfSymbols img) - Z.to_nat i < fuel)%nat ->
    scan img fuel i = Some (primaries fuel (skipn (Z.to_nat i) (raw_records img))).
Proof.
  intros Hsmall. induction fuel as [|fuel IH]; intros i Hi Hfuel; [lia|].
  rewrite scan_step. destruct (i <? NumberOfSymbols img) eqn:Hlt.
  - apply Z.ltb_lt in Hlt.
    pose proof (byte_val_range (NumberOfAuxSymbols (symbols img i))) as Hb.
    rewrite next_index_small by lia.
    rewrite IH by lia.
    assert (nth_error (raw_records img) (Z.to_nat i) = Some (symbols img i)) as Hnth.
    { rewrite raw_records_nth by lia. rewrite Z2Nat.id by lia. reflexivity. }
    rewrite (skipn_nth_error (raw_records img) (Z.to_nat i) _ Hnth).
    change (primaries (S fuel) (symbols img i :: ?l))
      with (symbols img i :: primaries fuel
              (skipn (Z.to_nat (byte_val (NumberOfAuxSymbols (symbols img i)))) l)).
    rewrite skipn_skipn_add.
    replace (Z.to_nat (i + 1 + byte_val (NumberOfAuxSymbols (symbols img i))))
      with (Z.to_nat (byte_val (NumberOfAuxSymbols (symbols img i))) + S (Z.to_nat i))%nat
      by lia.
    reflexivity.
  - apply Z.ltb_ge in Hlt.
    rewrite skipn_all2 by (rewrite raw_records_length; lia).
    reflexivity.
Qed.

Lemma scan_primaries (img : pe_image) :
  NumberOfSymbols img <= 2 ^ 32 - 256 ->
  scan img (scan_fuel img) 0 = Some (primary_records (raw_records img)).
Proof.
  intros Hsmall. unfold scan_fuel.
  rewrite scan_primaries_from by (simpl; lia).
  simpl skipn. unfold primary_records. f_equal.
  apply primaries_fuel_irrelevant; rewrite raw_records_length; lia.
Qed.

(** ** Sorted tables and the binary search *)

Lemma compare_symbols_le (a b : symbol_entry_t) :
  compare_symbols a b <= 0 <-> address_le a b.
Proof.
  unfold compare_symbols, address_le.
  destruct (address a <? address b) eqn:E1.
  - apply Z.ltb_lt in E1. lia.
  - apply Z.ltb_ge in E1. destruct (address b <? address a) eqn:E2.
    + apply Z.ltb_lt in E2. lia.
    + apply Z.ltb_ge in E2. lia.
Qed.

Lemma StronglySorted_impl {A : Type} (R S : A -> A -> Prop) (l : list A) :
  (forall a b, R a b -> S a b) -> StronglySorted R l -> StronglySorted S l.
Proof.
  intros HRS H. induction H as [|a l Hl IH Ha]; constructor.
  - exact IH.
  - eapply Forall_impl; [|exact Ha]. intros b. apply HRS.
Qed.

Lemma sorted_nth (tbl : list symbol_entry_t) :
  StronglySorted address_le tbl ->
  forall i j a b,
    (i <= j)%nat -> nth_error tbl i = Some a -> nth_error tbl j = Some b ->
    address a <= address b.
Proof.
  induction 1 as [|x l Hl IH Hx]; intros i j a b Hij Ha Hb.
  - destruct i; discriminate.
  - destruct i as [|i], j as [|j]; simpl in *; try lia.
    + injection Ha as <-. injection Hb as <-. lia.
    + injection Ha as <-. rewrite Forall_forall in Hx.
      apply Hx. eapply nth_error_In. exact Hb.
    + eapply IH; [|exact Ha|exact Hb]. lia.
Qed.

Lemma find_loop_floor (tbl : list symbol_entry_t) (addr : Z) :
  StronglySorted address_le tbl ->
  forall fuel low high best,
    0 <= low <= high -> high <= Z.of_nat (length tbl) ->
    high - low <= Z.of_nat fuel ->
    (forall j e, (Z.of_nat j < low) -> nth_error tbl j = Some e -> address e <= addr) ->
    (forall j e, (high <= Z.of_nat j) -> nth_error tbl j = Some e -> addr < address e) ->
    best = match Z.to_nat low with O => None | S k' => nth_error tbl k' end ->
    exists k, floor_at tbl addr k (find_loop tbl addr fuel low high best).
Proof.
  intros Hsorted. induction fuel as [|fuel IH];
    intros low high best Hlh Hhigh Hfuel Hbelow Habove Hbest.
  - simpl. assert (low = high) as -> by lia.
    rewrite Z.ltb_irrefl. exists (Z.to_nat high).
    repeat split; try assumption; try lia.
    + intros j e Hj. apply Hbelow. lia.
    + intros j e Hj. apply Habove. lia.
  - simpl. destruct (low <? high) eqn:Hlt.
    + apply Z.ltb_lt in Hlt.
      set (mid := low + (high - low) / 2).
      assert (low <= mid < high) as Hmid.
      { unfold mid. pose proof (Z.div_pos (high - low) 2).
        assert ((high - low) / 2 < high - low) by (apply Z.div_lt; lia). lia. }
      destruct (nth_error tbl (Z.to_nat mid)) as [e|] eqn:He.
      * destruct (address e <=? addr) eqn:Hcmp.
        -- apply Z.leb_le in Hcmp. apply IH; try lia.
           ++ intros j e' Hj Hj'.
              pose proof (sorted_nth tbl Hsorted j (Z.to_nat mid) e' e) as Hs.
              assert (address e' <= address e) by (apply Hs; auto; lia). lia.
           ++ exact Habove.
           ++ replace (Z.to_nat (mid + 1)) with (S (Z.to_nat mid)) by lia.
              symmetry. exact He.
        -- apply Z.leb_gt in Hcmp. apply IH; try lia.
           ++ exact Hbelow.
           ++ intros j e' Hj Hj'.
              pose proof (sorted_nth tbl Hsorted (Z.to_nat mid) j e e') as Hs.
              assert (address e <= address e') by (apply Hs; auto; lia). lia.
           ++ exact Hbest.
      * apply nth_error_None in He. lia.
    + apply Z.ltb_ge in Hlt. assert (low = high) as -> by lia.
      exists (Z.to_nat high). repeat split; try assumption; try lia.
      * intros j e Hj. apply Hbelow. lia.
      * intros j e Hj. apply Habove. lia.
Qed.

Lemma find_loop_In (tbl : list symbol_entry_t) (addr : Z) :
  forall fuel low high best e,
    find_loop tbl addr fuel low high best = Some e ->
    best = Some e \/ In e tbl.
Proof.
  induction fuel as [|fuel IH]; intros low high best e H; simpl in H.
  - destruct (low <? high); left; exact H.
  - destruct (low <? high); [|left; exact H].
    destruct (nth_error tbl (Z.to_nat (low + (high - low) / 2))) as [m|] eqn:Hm;
      [|discriminate].
    destruct (address m <=? addr).
    + apply IH in H. destruct H as [H|H]; [|right; exact H].
      injection H as <-. right. eapply nth_error_In. exact Hm.
    + apply IH in H. exact H.
Qed.

Lemma find_symbol_In (g : globals) (addr : Z) (e : symbol_entry_t) :
  find_symbol g addr = Some e ->
  exists tbl, g_symbol_table g = Some tbl /\ In e tbl /\
              wrap64 (addr - address e) < PROXIMITY.
Proof.
  unfold find_symbol. destruct (g_symbol_table g) as [tbl|]; [|discriminate].
  destruct (g_symbol_count g =? 0); [discriminate|].
  destruct (find_loop tbl addr (Z.to_nat (g_symbol_count g)) 0 (g_symbol_count g) None)
    as [best|] eqn:Hloop; [|discriminate].
  destruct (wrap64 (addr - address best) <? PROXIMITY) eqn:Hprox; [|discriminate].
  intros H. injection H as <-. exists tbl. split; [reflexivity|]. split.
  - apply find_loop_In in Hloop. destruct Hloop as [H|H]; [discriminate|exact H].
  - apply Z.ltb_lt. exact Hprox.
Qed.

(** [find_symbol] on a well-formed table: the floor entry, accepted when the
    query is less than [PROXIMITY] past it. *)
Lemma find_symbol_floor (g : globals) (tbl : list symbol_entry_t) (addr : Z) :
  table_ok g -> g_symbol_table g = Some tbl -> 0 <= addr < 2 ^ 64 ->
  exists k best,
    floor_at tbl addr k best /\
    find_symbol g addr =
    match best with
    | Some b => if addr - address b <? PROXIMITY then Some b else None
    | None => None
    end.
Proof.
  intros Hok Htbl Haddr. unfold table_ok in Hok. rewrite Htbl in Hok.
  destruct Hok as (Hcount & Hsorted & Hentries).
  unfold find_symbol. rewrite Htbl.
  destruct (g_symbol_count g =? 0) eqn:Hzero.
  - apply Z.eqb_eq in Hzero. exists 0%nat, None. split; [|reflexivity].
    assert (tbl = []) as -> by (apply length_zero_iff_nil; lia).
    unfold floor_at. split; [simpl; lia|]. split; [intros j e Hj; lia|].
    split; [|reflexivity]. intros j e _ He. destruct j; discriminate.
  - destruct (find_loop_floor tbl addr Hsorted (Z.to_nat (g_symbol_count g))
                0 (g_symbol_count g) None) as [k Hk]; try lia.
    + intros j e Hj He.
      assert (nth_error tbl j <> None) as Hn by congruence.
      apply nth_error_Some in Hn. lia.
    + reflexivity.
    + exists k, (find_loop tbl addr (Z.to_nat (g_symbol_count g)) 0 (g_symbol_count g) None).
      split; [exact Hk|].
      destruct (find_loop tbl addr (Z.to_nat (g_symbol_count g)) 0 (g_symbol_count g) None)
        as [b|] eqn:Hb; [|reflexivity].
      destruct Hk as (Hklen & Hbelow & _ & Hbest).
      destruct k as [|k']; [discriminate|].
      symmetry in Hbest. pose proof (Hbelow k' b (Nat.lt_succ_diag_r k') Hbest) as Hle.
      apply nth_error_In in Hbest. rewrite Forall_forall in Hentries.
      destruct (Hentries b Hbest) as (Hrange & _).
      rewrite wrap64_small by lia. reflexivity.
Qed.

(** ** Entries written by pass two *)

Lemma strncpy_mem_ok (mem : Z -> ascii) (n : nat) :
  forall p,
    Forall (fun c => is_NUL c = false) (strncpy_mem mem p n) /\
    (length (strncpy_mem mem p n) <= n)%nat.
Proof.
  induction n as [|n IH]; intros p; simpl.
  - split; [constructor|lia].
  - destruct (is_NUL (mem p)) eqn:E; simpl.
    + split; [constructor|lia].
    + destruct (IH (p + 1)) as [H1 H2]. split; [constructor; assumption|lia].
Qed.

Lemma strncpy_ok (n : nat) (src : list ascii) :
  Forall (fun c => is_NUL c = false) (strncpy n src) /\
  (length (strncpy n src) <= n)%nat.
Proof.
  unfold strncpy. split.
  - apply Forall_firstn. apply c_str_no_NUL.
  - apply firstn_le_length.
Qed.

Lemma make_entry_ok (img : pe_image) (base : Z) (sym : COFF_SYMBOL) :
  entry_ok (make_entry img base sym).
Proof.
  unfold entry_ok, make_entry; simpl.
  destruct (strncpy_ok 255 (symbol_name img sym)) as [H1 H2].
  split; [apply wrap64_range|]. split; assumption.
Qed.

Lemma c_str_id (l : list ascii) :
  Forall (fun c => is_NUL c = false) l -> c_str l = l.
Proof.
  induction 1 as [|c l Hc Hl IH]; simpl; [reflexivity|].
  rewrite Hc, IH. reflexivity.
Qed.

(** ** What the entry points do to the globals *)

Section Lifecycle.
Context {libc : Libc}.

Lemma init_lock_fields (g : globals) :
  g_initialized (init_lock g) = g_initialized g /\
  g_symbol_table (init_lock g) = g_symbol_table g /\
  g_symbol_count (init_lock g) = g_symbol_count g /\
  parse_runs (init_lock g) = parse_runs g /\
  g_lock_initialized (init_lock g) <> 0.
Proof.
  unfold init_lock. destruct (g_lock_initialized g =? 0) eqn:E; simpl.
  - repeat split; lia.
  - apply Z.eqb_neq in E. repeat split; assumption.
Qed.

Lemma init_lock_done (g : globals) :
  g_lock_initialized g <> 0 -> init_lock g = g.
Proof.
  intros H. unfold init_lock. apply Z.eqb_neq in H. rewrite H. reflexivity.
Qed.

(** The outcomes of one run of the parse pipeline from a state without a
    table: either no table is left behind, or the table is the sorted list of
    the entries of the qualifying primary records that the scan visits. *)
Lemma parse_coff_symbols_result (p : process) (g g' : globals) (r : Z) :
  g_symbol_table g = None -> g_symbol_count g = 0 ->
  parse_coff_symbols p g = Some (r, g') ->
  g_initialized g' = g_initialized g /\
  g_lock_initialized g' = g_lock_initialized g /\
  parse_runs g' = S (parse_runs g) /\
  ((g_symbol_table g' = None /\ g_symbol_count g' = 0) \/
   (r = 0 /\ g_runtime_base g' = exe_module p /\
    exists recs,
      scan (image p) (scan_fuel (image p)) 0 = Some recs /\
      count_text_symbols (image p) =
        Some (Z.of_nat (length (filter (is_text (image p)) recs))) /\
      g_symbol_table g' =
        Some (qsort compare_symbols (built_entries (image p) (exe_module p) recs)) /\
      g_symbol_count g' =
        Z.of_nat (length (built_entries (image p) (exe_module p) recs)))).
Proof.
  intros Htbl Hcnt. unfold parse_coff_symbols.
  repeat match goal with
  | |- context [if ?c then _ else _] =>
      destruct c eqn:?;
      [intros H; injection H as <- <-; simpl; repeat split; auto|]
  end.
  unfold count_text_symbols. rewrite count_loop_scan.
  destruct (scan (image p) (scan_fuel (image p)) 0) as [recs|] eqn:Hscan;
    [|discriminate].
  simpl Z.add.
  destruct (Z.of_nat (length (filter (is_text (image p)) recs)) =? 0) eqn:Hz.
  { intros H; injection H as <- <-; simpl; repeat split; auto. }
  destruct (negb (malloc_succeeds p)).
  { intros H; injection H as <- <-; simpl; repeat split; auto. }
  unfold fill_symbol_table.
  rewrite (fill_loop_scan _ _ _ _ _ _ _ recs Hscan) by lia.
  intros H; injection H as <- <-; simpl. repeat split.
  right. repeat split. exists recs. repeat split.
  unfold built_entries. rewrite length_map. reflexivity.
Qed.

Lemma built_table_ok (img : pe_image) (base : Z) (recs : list COFF_SYMBOL) :
  let tbl := qsort compare_symbols (built_entries img base recs) in
  length tbl = length (built_entries img base recs) /\
  StronglySorted address_le tbl /\
  Forall entry_ok tbl.
Proof.
  intros tbl.
  pose proof (qsort_perm (built_entries img base recs)) as Hperm.
  split; [symmetry; apply Permutation_length; exact Hperm|]. split.
  - eapply StronglySorted_impl; [|apply qsort_sorted].
    intros a b. apply compare_symbols_le.
  - eapply Permutation_Forall; [exact Hperm|].
    unfold built_entries. apply Forall_forall. intros e He.
    apply in_map_iff in He. destruct He as (sym & <- & _). apply make_entry_ok.
Qed.

Lemma parse_coff_symbols_table_ok (p : process) (g g' : globals) (r : Z) :
  g_symbol_table g = None -> g_symbol_count g = 0 ->
  parse_coff_symbols p g = Some (r, g') ->
  table_ok g'.
Proof.
  intros Htbl Hcnt H.
  destruct (parse_coff_symbols_result p g g' r Htbl Hcnt H)
    as (_ & _ & _ & [[Ht Hc] | (_ & _ & recs & _ & _ & Ht & Hc)]);
    unfold table_ok; rewrite Ht.
  - exact Hc.
  - destruct (built_table_ok (image p) (exe_module p) recs) as (Hlen & Hs & Hf).
    split; [rewrite Hc, Hlen; reflexivity|]. split; assumption.
Qed.

Lemma ensure_initialized_ready (p : process) (g : globals) :
  g_initialized g <> 0 -> ensure_initialized p g = Some (0, init_lock g).
Proof.
  intros H. unfold ensure_initialized.
  destruct (init_lock_fields g) as (Hi & _). rewrite Hi.
  apply Z.eqb_neq in H. rewrite H. reflexivity.
Qed.

Lemma ensure_initialized_first (p : process) (g : globals) :
  g_initialized g = 0 ->
  ensure_initialized p g =
  match parse_coff_symbols p (init_lock g) with
  | Some (result, g') => Some (result, set_initialized 1 g')
  | None => None
  end.
Proof.
  intros H. unfold ensure_initialized.
  destruct (init_lock_fields g) as (Hi & _). rewrite Hi, H. reflexivity.
Qed.

Lemma ensure_initialized_ok (p : process) (g g' : globals) (r : Z) :
  globals_ok g -> ensure_initialized p g = Some (r, g') ->
  globals_ok g' /\ g_initialized g' <> 0 /\ g_lock_initialized g' <> 0.
Proof.
  intros (Htab & Hnone & Hlock) H.
  destruct (init_lock_fields g) as (Hi & Ht & Hc & _ & Hl).
  destruct (Z.eq_dec (g_initialized g) 0) as [Hz|Hnz].
  - rewrite (ensure_initialized_first p g Hz) in H.
    destruct (parse_coff_symbols p (init_lock g)) as [[r0 g0]|] eqn:Hp;
      [|discriminate].
    injection H as <- <-.
    assert (g_symbol_table (init_lock g) = None) as Ht0
      by (rewrite Ht; apply Hnone; exact Hz).
    assert (g_symbol_count (init_lock g) = 0) as Hc0.
    { rewrite Hc. unfold table_ok in Htab. rewrite (Hnone Hz) in Htab. exact Htab. }
    pose proof (parse_coff_symbols_table_ok p _ _ _ Ht0 Hc0 Hp) as Hok.
    destruct (parse_coff_symbols_result p _ _ _ Ht0 Hc0 Hp) as (_ & Hl0 & _).
    assert (g_lock_initialized g0 <> 0) as Hl1 by (rewrite Hl0; exact Hl).
    unfold globals_ok; simpl. repeat split; try lia; auto.
  - rewrite (ensure_initialized_ready p g Hnz) in H. injection H as <- <-.
    rewrite (init_lock_done g (Hlock Hnz)).
    repeat split; auto.
Qed.

Lemma cleanup_ok (g : globals) :
  globals_ok g ->
  globals_ok (unw_windows_sym_cleanup g) /\
  g_initialized (unw_windows_sym_cleanup g) = 0 /\
  g_symbol_table (unw_windows_sym_cleanup g) = None /\
  g_symbol_count (unw_windows_sym_cleanup g) = 0.
Proof.
  intros (Htab & Hnone & Hlock). unfold unw_windows_sym_cleanup.
  destruct (g_initialized g =? 0) eqn:E; simpl.
  - apply Z.eqb_eq in E. pose proof (Hnone E) as Ht.
    pose proof Htab as Hcnt. unfold table_ok in Hcnt. rewrite Ht in Hcnt.
    repeat split; auto.
  - unfold globals_ok, table_ok; simpl. repeat split; auto; intros; lia.
Qed.

Lemma resolve_globals (p : process) (cursor : option unw_cursor_t)
    (buf : option (list ascii)) (buf_len : Z) (offp : option Z)
    (g : globals) (res : proc_name_result) :
  unw_get_proc_name_windows p cursor buf buf_len offp g = Some res ->
  out_globals res = g \/
  exists r, ensure_initialized p g = Some (r, out_globals res).
Proof.
  unfold unw_get_proc_name_windows.
  destruct cursor as [c|], buf as [b|];
    try (intros H; injection H as <-; left; reflexivity).
  destruct (buf_len =? 0); [intros H; injection H as <-; left; reflexivity|].
  destruct (ensure_initialized p g) as [[r g']|]; [|discriminate].
  intros H. right. exists r.
  repeat match type of H with
  | context [if ?c then _ else _] => destruct c
  | context [match find_symbol ?a ?b with _ => _ end] => destruct (find_symbol a b)
  end; injection H as <-; reflexivity.
Qed.

Lemma reachable_ok (g : globals) : reachable g -> globals_ok g.
Proof.
  induction 1 as [|p g r g' _ IH Hinit|g _ IH|p cursor buf buf_len offp g res _ IH Hres].
  - unfold globals_ok, table_ok; simpl. repeat split; auto.
  - eapply ensure_initialized_ok; [exact IH|exact Hinit].
  - apply cleanup_ok. exact IH.
  - apply resolve_globals in Hres. destruct Hres as [-> | [r Hr]]; [exact IH|].
    eapply ensure_initialized_ok; [exact IH|exact Hr].
Qed.

Lemma parse_no_symbols (p : process) (g : globals) :
  image_accessible p ->
  PointerToSymbolTable (image p) = 0 \/ NumberOfSymbols (image p) = 0 ->
  parse_coff_symbols p g =
  Some (0, set_image_base (ImageBase (image p))
             (set_runtime_base (exe_module p) (count_parse_run g))).
Proof.
  intros (Hp0 & Hp1 & Hf & Hm & Hv & Hdos & Hnt) Hzero.
  unfold parse_coff_symbols.
  apply Z.eqb_neq in Hp0. apply Z.leb_gt in Hp1. rewrite Hp0, Hp1.
  rewrite Hf, Hm, Hv, Hdos, Hnt, !Z.eqb_refl. simpl.
  destruct Hzero as [-> | ->].
  - reflexivity.
  - rewrite Z.eqb_refl, orb_true_r. reflexivity.
Qed.

Lemma parse_diverges (p : process) (g : globals) :
  image_accessible p ->
  PointerToSymbolTable (image p) <> 0 -> NumberOfSymbols (image p) <> 0 ->
  count_text_symbols (image p) = None ->
  parse_coff_symbols p g = None.
Proof.
  intros (Hp0 & Hp1 & Hf & Hm & Hv & Hdos & Hnt) Hoff Hnum Hcount.
  unfold parse_coff_symbols.
  apply Z.eqb_neq in Hp0, Hoff, Hnum. apply Z.leb_gt in Hp1.
  rewrite Hp0, Hp1, Hf, Hm, Hv, Hdos, Hnt, !Z.eqb_refl, Hoff, Hnum, Hcount.
  reflexivity.
Qed.

End Lifecycle.

(** ** Insertion sort meets the contract of [qsort] *)

Lemma insert_by_perm (x : symbol_entry_t) (l : list symbol_entry_t) :
  Permutation (x :: l) (insert_by compare_symbols x l).
Proof.
  induction l as [|y l IH]; simpl; [apply Permutation_refl|].
  destruct (compare_symbols x y <=? 0); [apply Permutation_refl|].
  eapply perm_trans; [apply perm_swap|]. apply perm_skip. exact IH.
Qed.

Lemma insertion_sort_perm (l : list symbol_entry_t) :
  Permutation l (insertion_sort compare_symbols l).
Proof.
  induction l as [|x l IH]; simpl; [constructor|].
  eapply perm_trans; [apply perm_skip; exact IH|]. apply insert_by_perm.
Qed.

Lemma insert_by_sorted (x : symbol_entry_t) (l : list symbol_entry_t) :
  StronglySorted address_le l ->
  StronglySorted address_le (insert_by compare_symbols x l).
Proof.
  induction 1 as [|y l Hl IH Hy]; simpl.
  - constructor; constructor.
  - destruct (compare_symbols x y <=? 0) eqn:E.
    + apply Z.leb_le, compare_symbols_le in E.
      constructor; [constructor; assumption|].
      constructor; [exact E|].
      eapply Forall_impl; [|exact Hy]. unfold address_le in *. intros; lia.
    + apply Z.leb_gt in E.
      assert (address_le y x) as Hyx.
      { destruct (Z.le_gt_cases (address y) (address x)) as [H|H]; [exact H|].
        exfalso. assert (compare_symbols x y <= 0); [|lia].
        apply compare_symbols_le. unfold address_le. lia. }
      constructor; [exact IH|].
      eapply Permutation_Forall; [apply insert_by_perm|].
      constructor; assumption.
Qed.

Lemma insertion_sort_sorted (l : list symbol_entry_t) :
  StronglySorted (fun a b => compare_symbols a b <= 0)
                 (insertion_sort compare_symbols l).
Proof.
  apply (StronglySorted_impl address_le).
  - intros a b. apply compare_symbols_le.
  - induction l as [|x l IH]; simpl; [constructor|].
    apply insert_by_sorted. exact IH.
Qed.

#[export] Instance insertion_libc : Libc :=
  {| qsort := insertion_sort;
     qsort_perm := insertion_sort_perm;
     qsort_sorted := insertion_sort_sorted |}.

(** ** Writing the name into the caller's buffer *)

Lemma firstn_c_str (l : list ascii) (n : nat) :
  (n <= length (c_str l))%nat -> firstn n l = firstn n (c_str l).
Proof.
  intros Hn. destruct (c_str_prefix l) as [rest Hrest].
  rewrite Hrest at 1. rewrite firstn_app.
  replace (n - length (c_str l))%nat with 0%nat by lia.
  simpl. apply app_nil_r.
Qed.

Lemma store_name_spec (buf name : list ascii) (n : Z) :
  0 <= n <= strlen name -> n + 1 <= Z.of_nat (length buf) ->
  c_str (store_name buf name n) = firstn (Z.to_nat n) (c_str name) /\
  length (store_name buf name n) = length buf /\
  nth_error (store_name buf name n) (Z.to_nat n) = Some NUL /\
  (exists rest, name = c_str (store_name buf name n) ++ rest).
Proof.
  intros Hn Hbuf. unfold strlen in Hn. unfold store_name.
  rewrite (firstn_c_str name (Z.to_nat n)) by lia.
  assert (length (firstn (Z.to_nat n) (c_str name)) = Z.to_nat n) as Hlen
    by (rewrite length_firstn; lia).
  assert (c_str (firstn (Z.to_nat n) (c_str name) ++
                 NUL :: skipn (Z.to_nat n + 1) buf) =
          firstn (Z.to_nat n) (c_str name)) as Hstr.
  { apply c_str_app_NUL. apply Forall_firstn. apply c_str_no_NUL. }
  repeat split.
  - exact Hstr.
  - rewrite length_app, Hlen. simpl. rewrite length_skipn. lia.
  - rewrite nth_error_app2 by lia. rewrite Hlen, Nat.sub_diag. reflexivity.
  - rewrite Hstr. destruct (c_str_prefix name) as [rest Hrest].
    exists (skipn (Z.to_nat n) (c_str name) ++ rest).
    rewrite app_assoc, firstn_skipn. exact Hrest.
Qed.

Lemma store_name_string (buf name : list ascii) (n : Z) :
  n <= strlen name ->
  c_str (store_name buf name n) = firstn (Z.to_nat n) (c_str name).
Proof.
  intros Hn. unfold strlen in Hn. unfold store_name.
  rewrite (firstn_c_str name (Z.to_nat n)) by lia.
  apply c_str_app_NUL. apply Forall_firstn. apply c_str_no_NUL.
Qed.

Section ResolverFacts.
Context {libc : Libc}.

(** A call with usable arguments in an initialized state: no parse, the
    globals stay as they are, the outcome is decided by [find_symbol]. *)
Lemma resolve_ready (p : process) (c : unw_cursor_t) (b : list ascii)
    (buf_len : Z) (offp : option Z) (g : globals) :
  globals_ok g -> g_initialized g <> 0 -> buf_len <> 0 -> get_reg_ret c = 0 ->
  unw_get_proc_name_windows p (Some c) (Some b) buf_len offp g =
  if reg_ip c =? 0 then
    Some {| rv := UNW_ENOINFO; out_buf := Some b; out_off := offp; out_globals := g |}
  else
    match find_symbol g (reg_ip c) with
    | None =>
        Some {| rv := UNW_ENOINFO; out_buf := Some b; out_off := offp;
                out_globals := g |}
    | Some sym =>
        Some {| rv := 0;
                out_buf := Some (store_name b (name sym)
                                   (Z.min (strlen (name sym)) (buf_len - 1)));
                out_off := option_map (fun _ => wrap64 (reg_ip c - address sym)) offp;
                out_globals := g |}
    end.
Proof.
  intros (_ & _ & Hlock) Hinit Hlen Hreg. unfold unw_get_proc_name_windows.
  apply Z.eqb_neq in Hlen. rewrite Hlen.
  rewrite (ensure_initialized_ready p g Hinit), (init_lock_done g (Hlock Hinit)).
  rewrite Hreg. simpl.
  destruct (reg_ip c =? 0); [reflexivity|].
  destruct (find_symbol g (reg_ip c)) as [sym|]; [|reflexivity].
  assert ((if buf_len <=? strlen (name sym) then buf_len - 1 else strlen (name sym))
          = Z.min (strlen (name sym)) (buf_len - 1)) as ->.
  { destruct (buf_len <=? strlen (name sym)) eqn:E.
    - apply Z.leb_le in E. lia.
    - apply Z.leb_gt in E. lia. }
  destruct offp; reflexivity.
Qed.

End ResolverFacts.

Lemma demo_init :
  unw_windows_sym_init demo_process initial_globals = Some (0, demo_ready).
Proof. vm_compute. reflexivity. Qed.

Lemma initial_globals_ok : globals_ok initial_globals.
Proof. unfold globals_ok, table_ok; simpl. repeat split; auto. Qed.

Lemma demo_ready_ok : globals_ok demo_ready.
Proof.
  destruct (ensure_initialized_ok demo_process initial_globals demo_ready 0
              initial_globals_ok demo_init) as [H _].
  exact H.
Qed.

(** * The claims *)

(** Closes a branch of the resolver that returns an error code, against the
    hypothesis that the call returned 0. *)
Ltac not_a_success H Hrv :=
  injection H as <-; simpl in Hrv;
  unfold UNW_EUNSPEC, UNW_ENOINFO in Hrv; discriminate Hrv.

Section Claims.
Context {libc : Libc}.

(** C9.  A call with a NULL cursor, a NULL buffer or a buffer length of zero
    returns [UNW_EUNSPEC] at once: the globals are exactly the ones before the
    call (no initialization ran, no parse was counted) and the caller's buffer
    and offset cell are untouched. *)
Theorem C9_argument_guard (p : process) (cursor : option unw_cursor_t)
    (buf : option (list ascii)) (buf_len : Z) (offp : option Z) (g : globals) :
  cursor = None \/ buf = None \/ buf_len = 0 ->
  unw_get_proc_name_windows p cursor buf buf_len offp g =
  Some {| rv := UNW_EUNSPEC; out_buf := buf; out_off := offp; out_globals := g |}.
Proof.
  intros [-> | [-> | ->]]; unfold unw_get_proc_name_windows.
  - reflexivity.
  - destruct cursor; reflexivity.
  - destruct cursor, buf; reflexivity.
Qed.

(** C10.  A call that returns 0 with a buffer of [L >= 1] bytes leaves in the
    buffer a NUL-terminated string that is a prefix of the name of an entry of
    the table, namely its first [min (strlen name) (L - 1)] characters; the
    buffer keeps its [L] bytes, so string and terminator fit in it. *)
Theorem C10_output_truncation (p : process) (cursor : option unw_cursor_t)
    (buf : list ascii) (L : Z) (offp : option Z) (g : globals)
    (res : proc_name_result) :
  1 <= L -> Z.of_nat (length buf) = L ->
  unw_get_proc_name_windows p cursor (Some buf) L offp g = Some res ->
  rv res = 0 ->
  exists tbl sym out,
    g_symbol_table (out_globals res) = Some tbl /\ In sym tbl /\
    out_buf res = Some out /\
    length out = length buf /\
    strlen out = Z.min (strlen (name sym)) (L - 1) /\
    strlen out + 1 <= L /\
    nth_error out (Z.to_nat (strlen out)) = Some NUL /\
    c_str out = firstn (Z.to_nat (L - 1)) (c_str (name sym)) /\
    exists rest, name sym = c_str out ++ rest.
Proof.
  intros HL Hbuf H Hrv. unfold unw_get_proc_name_windows in H.
  destruct cursor as [c|]; [|not_a_success H Hrv].
  destruct (L =? 0) eqn:HL0; [apply Z.eqb_eq in HL0; lia|].
  destruct (ensure_initialized p g) as [[r g']|]; [|discriminate].
  destruct (negb (r =? 0)); [not_a_success H Hrv|].
  destruct (negb (get_reg_ret c =? 0)); [not_a_success H Hrv|].
  destruct (reg_ip c =? 0); [not_a_success H Hrv|].
  destruct (find_symbol g' (reg_ip c)) as [sym|] eqn:Hfind;
    [|not_a_success H Hrv].
  injection H as <-. simpl.
  destruct (find_symbol_In g' (reg_ip c) sym Hfind) as (tbl & Htbl & Hin & _).
  set (n := if L <=? strlen (name sym) then L - 1 else strlen (name sym)).
  assert (n = Z.min (strlen (name sym)) (L - 1)) as Hn.
  { unfold n. destruct (L <=? strlen (name sym)) eqn:E.
    - apply Z.leb_le in E. lia.
    - apply Z.leb_gt in E. lia. }
  assert (0 <= strlen (name sym)) as Hpos by (unfold strlen; lia).
  destruct (store_name_spec buf (name sym) n) as (Hstr & Hlen & Hnul & Hpre);
    [lia|lia|].
  assert (strlen (store_name buf (name sym) n) = n) as Hsl.
  { unfold strlen at 1. rewrite Hstr, length_firstn. unfold strlen in Hn, Hpos. lia. }
  exists tbl, sym, (store_name buf (name sym) n).
  repeat split; try assumption.
  - rewrite Hsl. exact Hn.
  - rewrite Hsl. lia.
  - rewrite Hsl. exact Hnul.
  - rewrite Hstr. unfold strlen in Hn.
    destruct (Z.le_gt_cases (strlen (name sym)) (L - 1)) as [Hle|Hgt].
    + unfold strlen in Hle. rewrite !firstn_all2 by lia. reflexivity.
    + unfold strlen in Hgt. f_equal. lia.
Qed.

End Claims.

Lemma C9_argument_guard_witness :
  (@None unw_cursor_t = None \/ Some (chars "........") = None \/ 8 = 0) /\
  unw_get_proc_name_windows demo_process None (Some (chars "........")) 8 None
    initial_globals =
  Some {| rv := UNW_EUNSPEC; out_buf := Some (chars "........"); out_off := None;
          out_globals := initial_globals |}.
Proof.
  split; [left; reflexivity|].
  apply (C9_argument_guard demo_process None (Some (chars "........")) 8 None
           initial_globals).
  left; reflexivity.
Defined.

Lemma C10_output_truncation_witness :
  1 <= 3 /\
  Z.of_nat (length (chars "xyz")) = 3 /\
  unw_get_proc_name_windows demo_process (Some (cursor_at 0x7ff600001100))
    (Some (chars "xyz")) 3 (Some 0) demo_ready =
  Some {| rv := 0; out_buf := Some [ "m"%char; "a"%char; NUL ];
          out_off := Some 0; out_globals := demo_ready |} /\
  0 = 0 /\
  exists tbl sym out,
    g_symbol_table demo_ready = Some tbl /\ In sym tbl /\
    Some [ "m"%char; "a"%char; NUL ] = Some out /\
    length out = length (chars "xyz") /\
    strlen out = Z.min (strlen (name sym)) (3 - 1) /\
    strlen out + 1 <= 3 /\
    nth_error out (Z.to_nat (strlen out)) = Some NUL /\
    c_str out = firstn (Z.to_nat (3 - 1)) (c_str (name sym)) /\
    exists rest, name sym = c_str out ++ rest.
Proof.
  assert (unw_get_proc_name_windows demo_process (Some (cursor_at 0x7ff600001100))
            (Some (chars "xyz")) 3 (Some 0) demo_ready =
          Some {| rv := 0; out_buf := Some [ "m"%char; "a"%char; NUL ];
                  out_off := Some 0; out_globals := demo_ready |}) as Hcall
    by (vm_compute; reflexivity).
  split; [lia|]. split; [reflexivity|]. split; [exact Hcall|].
  split; [reflexivity|].
  exact (C10_output_truncation demo_process (Some (cursor_at 0x7ff600001100))
           (chars "xyz") 3 (Some 0) demo_ready _
           ltac:(lia) eq_refl Hcall eq_refl).
Defined.

Section ClaimsReady.
Context {libc : Libc}.

(** C6.  In an initialized state, a query that lies more than the proximity
    threshold (1 MiB) past the greatest entry address not exceeding it is a
    miss: the call returns [UNW_ENOINFO], writes nothing and keeps the
    globals.  In particular this is so for a query more than the threshold
    past every entry, hence past the last one. *)
Theorem C6_proximity_rejection (p : process) (c : unw_cursor_t)
    (b : list ascii) (L : Z) (offp : option Z) (g : globals)
    (tbl : list symbol_entry_t) :
  globals_ok g -> g_initialized g <> 0 -> g_symbol_table g = Some tbl ->
  get_reg_ret c = 0 -> L <> 0 -> 0 <= reg_ip c < 2 ^ 64 ->
  let miss := Some {| rv := UNW_ENOINFO; out_buf := Some b; out_off := offp;
                      out_globals := g |} in
  (forall e,
     In e tbl -> address e <= reg_ip c ->
     (forall e', In e' tbl -> address e' <= reg_ip c -> address e' <= address e) ->
     PROXIMITY < reg_ip c - address e ->
     unw_get_proc_name_windows p (Some c) (Some b) L offp g = miss) /\
  ((forall e, In e tbl -> address e + PROXIMITY < reg_ip c) ->
   unw_get_proc_name_windows p (Some c) (Some b) L offp g = miss).
Proof.
  intros Hok Hinit Htbl Hreg HL Hip miss.
  rewrite (resolve_ready p c b L offp g Hok Hinit HL Hreg).
  destruct Hok as (Htab & _).
  destruct (find_symbol_floor g tbl (reg_ip c) Htab Htbl Hip)
    as (k & best & (Hk & Hbelow & Habove & Hbest) & Hfind).
  rewrite Hfind. clear Hfind.
  unfold table_ok in Htab. rewrite Htbl in Htab.
  destruct Htab as (_ & Hsorted & _).
  split.
  - intros e Hin Hle Hmax Hfar.
    destruct (reg_ip c =? 0); [reflexivity|].
    destruct best as [b'|]; [|reflexivity].
    destruct k as [|k']; [discriminate|]. symmetry in Hbest.
    assert (address b' <= address e) as H1.
    { apply Hmax; [eapply nth_error_In; exact Hbest|].
      apply (Hbelow k' b'); [lia|exact Hbest]. }
    destruct (Z.ltb_spec (reg_ip c - address b') PROXIMITY); [lia|reflexivity].
  - intros Hall.
    destruct (reg_ip c =? 0); [reflexivity|].
    destruct best as [b'|]; [|reflexivity].
    destruct k as [|k']; [discriminate|]. symmetry in Hbest.
    apply nth_error_In in Hbest. specialize (Hall b' Hbest).
    destruct (Z.ltb_spec (reg_ip c - address b') PROXIMITY); [lia|reflexivity].
Qed.

(** C7.  From an uninitialized state, an accessible image whose header gives
    a symbol-table offset of zero or a symbol count of zero initializes with
    success (the parse runs once and leaves no table and a count of zero), and
    every later resolver call with usable arguments returns [UNW_ENOINFO],
    never an error, leaving buffer, offset cell and globals as they were. *)
Theorem C7_empty_symbol_table (p : process) (g : globals) :
  globals_ok g -> g_initialized g = 0 ->
  image_accessible p ->
  PointerToSymbolTable (image p) = 0 \/ NumberOfSymbols (image p) = 0 ->
  exists g1,
    unw_windows_sym_init p g = Some (0, g1) /\
    g_symbol_table g1 = None /\ g_symbol_count g1 = 0 /\
    parse_runs g1 = S (parse_runs g) /\
    forall calls,
      Forall usable calls ->
      resolve_all calls g1 =
      Some (map (fun c => {| rv := UNW_ENOINFO; out_buf := Some (rc_buf c);
                             out_off := rc_offp c; out_globals := g1 |}) calls).
Proof.
  intros Hok Hinit Hacc Hzero.
  pose proof Hok as (Htab & Hnone & _).
  destruct (init_lock_fields g) as (_ & Ht & Hc & Hruns & _).
  assert (g_symbol_count g = 0) as Hcnt.
  { unfold table_ok in Htab. rewrite (Hnone Hinit) in Htab. exact Htab. }
  unfold unw_windows_sym_init.
  pose proof (ensure_initialized_first p g Hinit) as Hfirst.
  rewrite (parse_no_symbols p (init_lock g) Hacc Hzero) in Hfirst.
  eexists. split; [exact Hfirst|].
  destruct (ensure_initialized_ok p g _ 0 Hok Hfirst) as (Hok1 & Hinit1 & _).
  split; [simpl; rewrite Ht; apply Hnone; exact Hinit|].
  split; [simpl; rewrite Hc; exact Hcnt|].
  split; [simpl; rewrite Hruns; reflexivity|].
  set (g1 := set_initialized 1 _) in *.
  assert (g_symbol_table g1 = None) as Ht1
    by (simpl; rewrite Ht; apply Hnone; exact Hinit).
  induction calls as [|c calls IH]; intros Hcalls; [reflexivity|].
  inversion Hcalls as [|? ? (Hreg & Hlen) Hrest]; subst.
  cbn [resolve_all map].
  rewrite (resolve_ready _ _ _ _ _ g1 Hok1 Hinit1 Hlen Hreg).
  unfold find_symbol. rewrite Ht1.
  destruct (reg_ip (rc_cursor c) =? 0); cbn [out_globals];
    rewrite (IH Hrest); reflexivity.
Qed.

End ClaimsReady.

Lemma C6_proximity_rejection_witness :
  globals_ok demo_ready /\ g_initialized demo_ready <> 0 /\
  get_reg_ret (cursor_at 0x7ff600201100) = 0 /\ 3 <> 0 /\
  0 <= reg_ip (cursor_at 0x7ff600201100) < 2 ^ 64 /\
  PROXIMITY < reg_ip (cursor_at 0x7ff600201100) - 0x7ff600001100 /\
  unw_get_proc_name_windows demo_process (Some (cursor_at 0x7ff600201100))
    (Some (chars "xyz")) 3 (Some 7) demo_ready =
  Some {| rv := UNW_ENOINFO; out_buf := Some (chars "xyz"); out_off := Some 7;
          out_globals := demo_ready |}.
Proof.
  assert (g_initialized demo_ready <> 0) as Hinit by (simpl; lia).
  assert (0 <= reg_ip (cursor_at 0x7ff600201100) < 2 ^ 64) as Hip by (simpl; lia).
  assert (PROXIMITY < reg_ip (cursor_at 0x7ff600201100) - 0x7ff600001100) as Hfar
    by (unfold PROXIMITY; simpl; lia).
  repeat (split; [first [exact demo_ready_ok | exact Hinit | reflexivity
                        | exact Hfar | lia]|]).
  destruct (C6_proximity_rejection demo_process (cursor_at 0x7ff600201100)
              (chars "xyz") 3 (Some 7) demo_ready _
              demo_ready_ok Hinit eq_refl eq_refl ltac:(lia) Hip) as [Hfloor _].
  apply (Hfloor {| address := 0x7ff600001100; name := chars "main" |}).
  - simpl. right. left. reflexivity.
  - simpl. lia.
  - intros e' [<- | [<- | []]] _; simpl; lia.
  - exact Hfar.
Defined.

Lemma stripped_accessible : image_accessible stripped_process.
Proof.
  unfold image_accessible; simpl. unfold MAX_PATH.
  repeat split; try reflexivity; lia.
Qed.

Lemma C7_empty_symbol_table_witness :
  globals_ok initial_globals /\ g_initialized initial_globals = 0 /\
  image_accessible stripped_process /\
  (PointerToSymbolTable (image stripped_process) = 0 \/
   NumberOfSymbols (image stripped_process) = 0) /\
  exists g1,
    unw_windows_sym_init stripped_process initial_globals = Some (0, g1) /\
    g_symbol_table g1 = None /\ g_symbol_count g1 = 0 /\
    parse_runs g1 = S (parse_runs initial_globals) /\
    forall calls,
      Forall usable calls ->
      resolve_all calls g1 =
      Some (map (fun c => {| rv := UNW_ENOINFO; out_buf := Some (rc_buf c);
                             out_off := rc_offp c; out_globals := g1 |}) calls).
Proof.
  split; [exact initial_globals_ok|]. split; [reflexivity|].
  split; [exact stripped_accessible|]. split; [left; reflexivity|].
  exact (C7_empty_symbol_table stripped_process initial_globals
           initial_globals_ok eq_refl stripped_accessible (or_introl eq_refl)).
Defined.

(** ** Hits *)

Lemma floor_unique (tbl : list symbol_entry_t) (q : Z) (k i : nat)
    (best : option symbol_entry_t) (e : symbol_entry_t) :
  floor_at tbl q k best ->
  nth_error tbl i = Some e -> address e <= q ->
  (forall j e', (i < j)%nat -> nth_error tbl j = Some e' -> q < address e') ->
  best = Some e.
Proof.
  intros (Hk & Hbelow & Habove & Hbest) Hi Hle Hafter.
  assert (i < k)%nat as Hik.
  { destruct (Nat.lt_ge_cases i k) as [H|H]; [exact H|].
    pose proof (Habove i e H Hi). lia. }
  assert (k = S i) as ->.
  { destruct (Nat.eq_dec k (S i)) as [H|H]; [exact H|].
    assert (S i < length tbl)%nat as Hlen by lia.
    destruct (nth_error tbl (S i)) as [e'|] eqn:He';
      [|apply nth_error_None in He'; lia].
    pose proof (Hafter (S i) e' (Nat.lt_succ_diag_r i) He').
    assert (address e' <= q) by (apply (Hbelow (S i) e'); [lia|exact He']).
    lia. }
  rewrite Hbest. exact Hi.
Qed.

Lemma distinct_addresses (tbl : list symbol_entry_t) (i j : nat)
    (a b : symbol_entry_t) :
  NoDup (map address tbl) ->
  nth_error tbl i = Some a -> nth_error tbl j = Some b ->
  address a = address b -> i = j.
Proof.
  intros Hnd Ha Hb Heq.
  apply (proj1 (NoDup_nth_error (map address tbl)) Hnd).
  - rewrite length_map. apply nth_error_Some. congruence.
  - rewrite !nth_error_map, Ha, Hb. simpl. congruence.
Qed.

Lemma firstn_min_length {A : Type} (l : list A) (n : Z) :
  0 <= n ->
  firstn (Z.to_nat (Z.min (Z.of_nat (length l)) n)) l = firstn (Z.to_nat n) l.
Proof.
  intros Hn. destruct (Z.le_gt_cases (Z.of_nat (length l)) n) as [H|H].
  - rewrite !firstn_all2 by lia. reflexivity.
  - f_equal. lia.
Qed.

Section ClaimsHit.
Context {libc : Libc}.

(** A query whose floor entry is [e], within the threshold: the call returns
    0, the buffer holds the name cut to [L - 1] characters, the offset is the
    distance from the entry. *)
Lemma resolve_hit (p : process) (c : unw_cursor_t) (b : list ascii) (L : Z)
    (offp : option Z) (g : globals) (tbl : list symbol_entry_t) (i : nat)
    (e : symbol_entry_t) :
  globals_ok g -> g_initialized g <> 0 -> g_symbol_table g = Some tbl ->
  get_reg_ret c = 0 -> 1 <= L ->
  nth_error tbl i = Some e -> address e <= reg_ip c ->
  (forall j e', (i < j)%nat -> nth_error tbl j = Some e' -> reg_ip c < address e') ->
  reg_ip c - address e < PROXIMITY -> reg_ip c <> 0 -> reg_ip c < 2 ^ 64 ->
  exists res,
    unw_get_proc_name_windows p (Some c) (Some b) L offp g = Some res /\
    rv res = 0 /\
    buffer_string (out_buf res) = firstn (Z.to_nat (L - 1)) (name e) /\
    out_off res = option_map (fun _ => reg_ip c - address e) offp /\
    out_globals res = g.
Proof.
  intros Hok Hinit Htbl Hreg HL Hi Hle Hafter Hnear Hnz Hlt.
  rewrite (resolve_ready p c b L offp g Hok Hinit ltac:(lia) Hreg).
  destruct Hok as (Htab & _).
  assert (entry_ok e) as (Hrange & Hnul & _).
  { unfold table_ok in Htab. rewrite Htbl in Htab.
    destruct Htab as (_ & _ & Hall). rewrite Forall_forall in Hall.
    apply Hall. eapply nth_error_In. exact Hi. }
  destruct (find_symbol_floor g tbl (reg_ip c) Htab Htbl ltac:(lia))
    as (k & best & Hfloor & Hfind).
  rewrite (floor_unique tbl (reg_ip c) k i best e Hfloor Hi Hle Hafter) in Hfind.
  apply Z.eqb_neq in Hnz. rewrite Hnz, Hfind.
  apply Z.ltb_lt in Hnear. rewrite Hnear.
  eexists. split; [reflexivity|]. simpl.
  split; [reflexivity|]. split.
  - rewrite store_name_string by (unfold strlen; lia).
    rewrite (c_str_id (name e) Hnul). unfold strlen.
    rewrite (c_str_id (name e) Hnul). apply firstn_min_length. lia.
  - split; [|reflexivity]. rewrite wrap64_small by lia. reflexivity.
Qed.

(** An initialization that parses an image with a symbol table and a
    qualifying record, and returns 0, leaves the sorted entries of the
    qualifying records as its table. *)
Lemma init_indexes_symbols (p : process) (g g1 : globals)
    (recs : list COFF_SYMBOL) (sym : COFF_SYMBOL) :
  globals_ok g -> g_initialized g = 0 ->
  unw_windows_sym_init p g = Some (0, g1) ->
  PointerToSymbolTable (image p) <> 0 ->
  scan (image p) (scan_fuel (image p)) 0 = Some recs ->
  In sym recs -> qualifies (image p) sym = true ->
  g_symbol_table g1 =
    Some (qsort compare_symbols (built_entries (image p) (exe_module p) recs)).
Proof.
  intros Hok Hinit H Hoff Hscan Hin Hq.
  unfold unw_windows_sym_init in H.
  rewrite (ensure_initialized_first p g Hinit) in H.
  destruct (parse_coff_symbols p (init_lock g)) as [[r0 g0]|] eqn:Hp;
    [|discriminate].
  injection H as -> <-.
  assert (In sym (filter (is_text (image p)) recs)) as Htext.
  { apply filter_In. split; [exact Hin|].
    rewrite qualifies_eq in Hq. apply andb_true_iff in Hq. apply Hq. }
  assert (NumberOfSymbols (image p) <> 0) as Hnum.
  { intros Hz. unfold scan_fuel in Hscan. rewrite scan_step, Hz in Hscan.
    simpl in Hscan. injection Hscan as <-. destruct Hin. }
  unfold parse_coff_symbols in Hp.
  apply Z.eqb_neq in Hoff, Hnum. rewrite Hoff, Hnum in Hp. simpl orb in Hp.
  unfold count_text_symbols in Hp. rewrite count_loop_scan, Hscan in Hp.
  simpl Z.add in Hp.
  assert ((Z.of_nat (length (filter (is_text (image p)) recs)) =? 0) = false) as Hz.
  { apply Z.eqb_neq. destruct (filter (is_text (image p)) recs);
      [destruct Htext|simpl length; lia]. }
  rewrite Hz in Hp. unfold fill_symbol_table in Hp.
  rewrite (fill_loop_scan _ _ _ _ _ _ _ recs Hscan) in Hp by lia.
  repeat match type of Hp with
  | context [if ?c then _ else _] => destruct c; [discriminate Hp|]
  end.
  injection Hp as <-. reflexivity.
Qed.

(** C4.  After a successful initialization (one that found the module
    uninitialized, parsed the image and returned 0) of an image with a symbol
    table whose qualifying symbols lie at pairwise distinct runtime
    addresses, in a process whose module handle is a real one (not NULL, the
    image below the top of the address space): a query at the exact address
    of a qualifying
    symbol returns 0 with that symbol's name (as far as the buffer holds it)
    and offset 0; a query strictly between the addresses of two qualifying
    symbols that are neighbours in address order, less than the threshold
    past the lower one, returns 0 with the lower symbol's name and the
    distance from it as offset. *)
Theorem C4_floor_search (p : process) (g g1 : globals)
    (recs : list COFF_SYMBOL) :
  let entry := make_entry (image p) (exe_module p) in
  globals_ok g -> g_initialized g = 0 ->
  0 < exe_module p <= 2 ^ 64 - 2 ^ 32 ->
  PointerToSymbolTable (image p) <> 0 ->
  unw_windows_sym_init p g = Some (0, g1) ->
  scan (image p) (scan_fuel (image p)) 0 = Some recs ->
  NoDup (map address (built_entries (image p) (exe_module p) recs)) ->
  (forall sym p' c b L offp,
     In sym recs -> qualifies (image p) sym = true ->
     get_reg_ret c = 0 -> reg_ip c = address (entry sym) -> 1 <= L ->
     exists res,
       unw_get_proc_name_windows p' (Some c) (Some b) L offp g1 = Some res /\
       rv res = 0 /\
       buffer_string (out_buf res) =
         firstn (Z.to_nat (L - 1)) (strncpy 255 (symbol_name (image p) sym)) /\
       out_off res = option_map (fun _ => 0) offp /\
       out_globals res = g1) /\
  (forall sym sym' p' c b L offp,
     In sym recs -> qualifies (image p) sym = true ->
     In sym' recs -> qualifies (image p) sym' = true ->
     (forall t, In t recs -> qualifies (image p) t = true ->
        address (entry t) <= address (entry sym) \/
        address (entry sym') <= address (entry t)) ->
     address (entry sym) < reg_ip c < address (entry sym') ->
     reg_ip c - address (entry sym) < PROXIMITY ->
     get_reg_ret c = 0 -> 1 <= L ->
     exists res,
       unw_get_proc_name_windows p' (Some c) (Some b) L offp g1 = Some res /\
       rv res = 0 /\
       buffer_string (out_buf res) =
         firstn (Z.to_nat (L - 1)) (strncpy 255 (symbol_name (image p) sym)) /\
       out_off res = option_map (fun _ => reg_ip c - address (entry sym)) offp /\
       out_globals res = g1).
Proof.
  intros entry Hok Hinit Hbase Hoff H Hscan Hnd.
  destruct (ensure_initialized_ok p g g1 0 Hok H) as (Hok1 & Hinit1 & _).
  set (tbl := qsort compare_symbols (built_entries (image p) (exe_module p) recs)).
  pose proof (qsort_perm (built_entries (image p) (exe_module p) recs)) as Hperm.
  fold tbl in Hperm.
  destruct (built_table_ok (image p) (exe_module p) recs) as (_ & Hsorted & _).
  fold tbl in Hsorted.
  assert (NoDup (map address tbl)) as Hnd'.
  { eapply Permutation_NoDup; [|exact Hnd]. apply Permutation_map. exact Hperm. }
  assert (forall sym, In sym recs -> qualifies (image p) sym = true ->
            g_symbol_table g1 = Some tbl /\
            exists i, nth_error tbl i = Some (entry sym)) as Hentry.
  { intros sym Hin Hq. split.
    - exact (init_indexes_symbols p g g1 recs sym Hok Hinit H Hoff Hscan Hin Hq).
    - apply In_nth_error. apply (Permutation_in _ Hperm).
      unfold built_entries. apply in_map. apply filter_In. split; assumption. }
  assert (forall e, In e tbl ->
            exists t, In t recs /\ qualifies (image p) t = true /\ e = entry t)
    as Hfrom.
  { intros e He. apply (Permutation_in _ (Permutation_sym Hperm)) in He.
    unfold built_entries in He. apply in_map_iff in He.
    destruct He as (t & <- & Ht). apply filter_In in Ht.
    exists t. split; [apply Ht|]. split; [apply Ht|reflexivity]. }
  split.
  - intros sym p' c b L offp Hin Hq Hreg Hip HL.
    destruct (Hentry sym Hin Hq) as (Htbl & i & Hi).
    assert (address (entry sym) = exe_module p + symbol_rva (image p) sym) as Haddr.
    { unfold entry, make_entry; simpl. apply wrap64_small.
      unfold symbol_rva. pose proof (wrap32_range
        (VirtualAddress (sections (image p) (SectionNumber sym - 1)) + Value sym)).
      lia. }
    assert (0 <= symbol_rva (image p) sym < 2 ^ 32) as Hrva
      by (unfold symbol_rva; apply wrap32_range).
    destruct (resolve_hit p' c b L offp g1 tbl i (entry sym))
      as (res & Hres & Hrv & Hbuf & Hout & Hg); try assumption; try lia.
    + intros j e' Hij Hj.
      pose proof (sorted_nth tbl Hsorted i j (entry sym) e' ltac:(lia) Hi Hj) as Hle.
      assert (address (entry sym) <> address e') as Hne.
      { intros Heq.
        pose proof (distinct_addresses tbl i j (entry sym) e' Hnd' Hi Hj Heq). lia. }
      lia.
    + unfold PROXIMITY. lia.
    + exists res. rewrite Hip, Z.sub_diag in Hout.
      repeat split; assumption.
  - intros sym sym' p' c b L offp Hin Hq Hin' Hq' Hnext Hbetween Hnear Hreg HL.
    destruct (Hentry sym Hin Hq) as (Htbl & i & Hi).
    pose proof (make_entry_ok (image p) (exe_module p) sym) as (Hrange & _).
    pose proof (make_entry_ok (image p) (exe_module p) sym') as (Hrange' & _).
    fold entry in Hrange, Hrange'.
    apply (resolve_hit p' c b L offp g1 tbl i (entry sym)); try assumption; try lia.
    intros j e' Hij Hj.
    destruct (Hfrom e' (nth_error_In _ _ Hj)) as (t & Ht & Hqt & ->).
    pose proof (sorted_nth tbl Hsorted i j (entry sym) (entry t) ltac:(lia) Hi Hj)
      as Hle.
    destruct (Hnext t Ht Hqt) as [Hlow | Hhigh]; [|lia].
    assert (address (entry sym) = address (entry t)) as Heq by lia.
    pose proof (distinct_addresses tbl i j (entry sym) (entry t) Hnd' Hi Hj Heq). lia.
Qed.

End ClaimsHit.

Lemma C4_floor_search_witness :
  globals_ok initial_globals /\ g_initialized initial_globals = 0 /\
  0 < exe_module demo_process <= 2 ^ 64 - 2 ^ 32 /\
  PointerToSymbolTable (image demo_process) <> 0 /\
  unw_windows_sym_init demo_process initial_globals = Some (0, demo_ready) /\
  scan (image demo_process) (scan_fuel (image demo_process)) 0 =
    Some [ symbols demo_image 0; symbols demo_image 2; symbols demo_image 3;
           symbols demo_image 4 ] /\
  NoDup (map address
           (built_entries (image demo_process) (exe_module demo_process)
              [ symbols demo_image 0; symbols demo_image 2;
                symbols demo_image 3; symbols demo_image 4 ])) /\
  (exists res,
     unw_get_proc_name_windows demo_process (Some (cursor_at 0x7ff600001100))
       (Some (chars "????????")) 8 (Some 9) demo_ready = Some res /\
     rv res = 0 /\
     buffer_string (out_buf res) = firstn (Z.to_nat (8 - 1)) (chars "main") /\
     out_off res = option_map (fun _ => 0) (Some 9) /\
     out_globals res = demo_ready) /\
  (exists res,
     unw_get_proc_name_windows demo_process (Some (cursor_at 0x7ff600001050))
       (Some (chars "????????")) 8 (Some 9) demo_ready = Some res /\
     rv res = 0 /\
     buffer_string (out_buf res) =
       firstn (Z.to_nat (8 - 1)) (chars "resolve_symbol_name") /\
     out_off res = option_map (fun _ => 0x7ff600001050 - 0x7ff600001040) (Some 9) /\
     out_globals res = demo_ready).
Proof.
  assert (scan (image demo_process) (scan_fuel (image demo_process)) 0 =
            Some [ symbols demo_image 0; symbols demo_image 2;
                   symbols demo_image 3; symbols demo_image 4 ]) as Hscan
    by (vm_compute; reflexivity).
  assert (NoDup (map address
            (built_entries (image demo_process) (exe_module demo_process)
               [ symbols demo_image 0; symbols demo_image 2;
                 symbols demo_image 3; symbols demo_image 4 ]))) as Hnd.
  { vm_compute. constructor.
    - intros [H | []]. discriminate H.
    - constructor; [intros []|constructor]. }
  assert (0 < exe_module demo_process <= 2 ^ 64 - 2 ^ 32) as Hbase
    by (simpl; lia).
  assert (PointerToSymbolTable (image demo_process) <> 0) as Hoff
    by (simpl; lia).
  destruct (C4_floor_search demo_process initial_globals demo_ready _
              initial_globals_ok eq_refl Hbase Hoff demo_init Hscan Hnd)
    as [Hexact Hbetween].
  split; [exact initial_globals_ok|]. split; [reflexivity|].
  split; [exact Hbase|]. split; [exact Hoff|]. split; [exact demo_init|].
  split; [exact Hscan|]. split; [exact Hnd|]. split.
  - apply (Hexact (symbols demo_image 2) demo_process
             (cursor_at 0x7ff600001100) (chars "????????") 8 (Some 9)).
    + simpl. right. left. reflexivity.
    + vm_compute. reflexivity.
    + reflexivity.
    + vm_compute. reflexivity.
    + lia.
  - apply (Hbetween (symbols demo_image 4) (symbols demo_image 2) demo_process
             (cursor_at 0x7ff600001050) (chars "????????") 8 (Some 9)).
    + simpl. do 3 right. left. reflexivity.
    + vm_compute. reflexivity.
    + simpl. right. left. reflexivity.
    + vm_compute. reflexivity.
    + intros t Ht _. simpl in Ht.
      destruct Ht as [<- | [<- | [<- | [<- | []]]]]; vm_compute;
        [left | right | right | left]; intros Hc; discriminate Hc.
    + vm_compute. split; reflexivity.
    + vm_compute. reflexivity.
    + reflexivity.
    + lia.
Defined.

Lemma is_text_symbol_section (sym : COFF_SYMBOL)
    (secs : Z -> IMAGE_SECTION_HEADER) (n : Z) :
  is_text_symbol sym secs n = true -> 1 <= SectionNumber sym <= n.
Proof.
  unfold is_text_symbol.
  destruct (SectionNumber sym <=? 0) eqn:E1; [discriminate|].
  destruct (n <? SectionNumber sym) eqn:E2; [discriminate|].
  apply Z.leb_gt in E1. apply Z.ltb_ge in E2. intros _. lia.
Qed.

Section ClaimsBuild.
Context {libc : Libc}.

(** The table an initialization from an uninitialized state leaves, when it
    leaves one. *)
Lemma init_built (p : process) (g g1 : globals) (r : Z)
    (tbl : list symbol_entry_t) :
  globals_ok g -> g_initialized g = 0 ->
  unw_windows_sym_init p g = Some (r, g1) ->
  g_symbol_table g1 = Some tbl ->
  r = 0 /\ g_runtime_base g1 = exe_module p /\
  parse_runs g1 = S (parse_runs g) /\
  exists recs,
    scan (image p) (scan_fuel (image p)) 0 = Some recs /\
    count_text_symbols (image p) =
      Some (Z.of_nat (length (filter (is_text (image p)) recs))) /\
    tbl = qsort compare_symbols (built_entries (image p) (exe_module p) recs) /\
    g_symbol_count g1 =
      Z.of_nat (length (built_entries (image p) (exe_module p) recs)).
Proof.
  intros (Htab & Hnone & _) Hinit H Htbl.
  unfold unw_windows_sym_init in H.
  rewrite (ensure_initialized_first p g Hinit) in H.
  destruct (parse_coff_symbols p (init_lock g)) as [[r0 g0]|] eqn:Hp;
    [|discriminate].
  injection H as <- <-.
  destruct (init_lock_fields g) as (_ & Ht & Hc & Hruns & _).
  assert (g_symbol_table (init_lock g) = None) as Ht0
    by (rewrite Ht; apply Hnone; exact Hinit).
  assert (g_symbol_count (init_lock g) = 0) as Hc0.
  { rewrite Hc. unfold table_ok in Htab. rewrite (Hnone Hinit) in Htab. exact Htab. }
  destruct (parse_coff_symbols_result p _ _ _ Ht0 Hc0 Hp)
    as (_ & _ & Hr & [[Hn _] | (-> & Hbase & recs & Hscan & Hcount & Hbuilt & Hlen)]).
  - simpl in Htbl. congruence.
  - simpl in Htbl |- *. rewrite Hbuilt in Htbl. injection Htbl as <-.
    repeat split; try assumption; try lia.
    exists recs. repeat split; assumption.
Qed.

(** C5, amended.  Every entry of the table built by an initialization comes
    from a qualifying primary record with a valid 1-based section number, and
    its address is the load base plus the 32-bit sum of the section's virtual
    address and the symbol's value, taken in 64 bits: it equals
    [runtime_base + virtual_address + value] whenever the relative address
    fits in 32 bits and the sum in 64 bits. *)
Theorem C5_address_translation (p : process) (g g1 : globals) (r : Z)
    (tbl : list symbol_entry_t) (e : symbol_entry_t) :
  globals_ok g -> g_initialized g = 0 ->
  unw_windows_sym_init p g = Some (r, g1) ->
  g_symbol_table g1 = Some tbl -> In e tbl ->
  exists recs sym,
    scan (image p) (scan_fuel (image p)) 0 = Some recs /\ In sym recs /\
    qualifies (image p) sym = true /\
    1 <= SectionNumber sym <= NumberOfSections (image p) /\
    g_runtime_base g1 = exe_module p /\
    name e = strncpy 255 (symbol_name (image p) sym) /\
    let section := sections (image p) (SectionNumber sym - 1) in
    address e =
      wrap64 (g_runtime_base g1 + wrap32 (VirtualAddress section + Value sym)) /\
    (0 <= VirtualAddress section + Value sym < 2 ^ 32 ->
     0 <= g_runtime_base g1 + VirtualAddress section + Value sym < 2 ^ 64 ->
     address e = g_runtime_base g1 + VirtualAddress section + Value sym).
Proof.
  intros Hok Hinit H Htbl Hin.
  destruct (init_built p g g1 r tbl Hok Hinit H Htbl)
    as (_ & Hbase & _ & recs & Hscan & _ & -> & _).
  apply (Permutation_in _ (Permutation_sym (qsort_perm _))) in Hin.
  unfold built_entries in Hin. apply in_map_iff in Hin.
  destruct Hin as (sym & <- & Hsym). apply filter_In in Hsym.
  destruct Hsym as [Hrec Hq].
  exists recs, sym. repeat split; try assumption.
  - rewrite qualifies_eq in Hq. apply andb_true_iff in Hq. destruct Hq as [Ht _].
    apply (is_text_symbol_section _ _ _ Ht).
  - rewrite qualifies_eq in Hq. apply andb_true_iff in Hq. destruct Hq as [Ht _].
    apply (is_text_symbol_section _ _ _ Ht).
  - simpl. rewrite Hbase. reflexivity.
  - intros H32 H64. simpl. unfold symbol_rva. rewrite Hbase in H64 |- *.
    rewrite (wrap32_small _ H32). rewrite wrap64_small by lia. lia.
Qed.

End ClaimsBuild.

Lemma C5_address_translation_witness :
  globals_ok initial_globals /\ g_initialized initial_globals = 0 /\
  unw_windows_sym_init demo_process initial_globals = Some (0, demo_ready) /\
  In {| address := 0x7ff600001100; name := chars "main" |}
     [ {| address := 0x7ff600001040; name := chars "resolve_symbol_name" |};
       {| address := 0x7ff600001100; name := chars "main" |} ] /\
  exists recs sym,
    scan (image demo_process) (scan_fuel (image demo_process)) 0 = Some recs /\
    In sym recs /\
    qualifies (image demo_process) sym = true /\
    1 <= SectionNumber sym <= NumberOfSections (image demo_process) /\
    g_runtime_base demo_ready = exe_module demo_process /\
    chars "main" = strncpy 255 (symbol_name (image demo_process) sym) /\
    let section := sections (image demo_process) (SectionNumber sym - 1) in
    0x7ff600001100 =
      wrap64 (g_runtime_base demo_ready +
              wrap32 (VirtualAddress section + Value sym)) /\
    (0 <= VirtualAddress section + Value sym < 2 ^ 32 ->
     0 <= g_runtime_base demo_ready + VirtualAddress section + Value sym < 2 ^ 64 ->
     0x7ff600001100 =
       g_runtime_base demo_ready + VirtualAddress section + Value sym).
Proof.
  assert (In {| address := 0x7ff600001100; name := chars "main" |}
            [ {| address := 0x7ff600001040; name := chars "resolve_symbol_name" |};
              {| address := 0x7ff600001100; name := chars "main" |} ]) as Hin
    by (right; left; reflexivity).
  split; [exact initial_globals_ok|]. split; [reflexivity|].
  split; [exact demo_init|]. split; [exact Hin|].
  exact (C5_address_translation demo_process initial_globals demo_ready 0 _
           {| address := 0x7ff600001100; name := chars "main" |}
           initial_globals_ok eq_refl demo_init eq_refl Hin).
Defined.

(** C5 as stated fails when the 32-bit sum wraps: the only entry has address
    [base + 0x1000], not [base + 0xFFFFF000 + 0x2000]. *)
Lemma C5_counterexample :
  unw_windows_sym_init high_section_process initial_globals =
    Some (0, high_section_ready) /\
  g_symbol_table high_section_ready =
    Some [ {| address := 0x7ff600001000; name := chars "f" |} ] /\
  0x7ff600001000 <>
    g_runtime_base high_section_ready +
    VirtualAddress (sections high_section_image
                      (SectionNumber (symbols high_section_image 0) - 1)) +
    Value (symbols high_section_image 0).
Proof.
  split; [vm_compute; reflexivity|]. split; [reflexivity|].
  vm_compute. discriminate.
Qed.

Lemma filter_text_all_qualify (img : pe_image) (recs : list COFF_SYMBOL) :
  length (filter (qualifies img) recs) = length (filter (is_text img) recs) <->
  Forall (fun s => is_text img s = true -> is_internal img s = false) recs.
Proof.
  induction recs as [|s recs IH].
  - simpl. split; [constructor|reflexivity].
  - rewrite !filter_cons_eq, qualifies_eq.
    pose proof (filter_qualifies_length img recs) as Hle.
    destruct (is_text img s) eqn:Ht; simpl andb.
    + destruct (is_internal img s) eqn:Hi; simpl negb; cbv iota; simpl length.
      * split; [lia|]. intros H. inversion H as [|? ? Hs _]; subst.
        specialize (Hs Ht). congruence.
      * split.
        -- intros H. constructor; [intros _; exact Hi|]. apply IH. lia.
        -- intros H. inversion H; subst. f_equal. apply IH. assumption.
    + split.
      * intros H. constructor; [congruence|]. apply IH. exact H.
      * intros H. inversion H; subst. apply IH. assumption.
Qed.

Section ClaimsPasses.
Context {libc : Libc}.

(** C3, amended.  When an initialization builds a table, pass one has counted
    the text symbols among the primary records it visits; that count sizes the
    allocation.  Pass two ends too and stores exactly the counted records
    whose name does not begin with a dot, so [g_symbol_count] is at most the
    count of pass one, and equals it exactly when no counted record has a
    name beginning with a dot. *)
Theorem C3_two_pass_counts (p : process) (g g1 : globals) (r : Z)
    (tbl : list symbol_entry_t) :
  globals_ok g -> g_initialized g = 0 ->
  unw_windows_sym_init p g = Some (r, g1) ->
  g_symbol_table g1 = Some tbl ->
  exists recs func_count,
    scan (image p) (scan_fuel (image p)) 0 = Some recs /\
    count_text_symbols (image p) = Some func_count /\
    func_count = Z.of_nat (length (filter (is_text (image p)) recs)) /\
    fill_symbol_table (image p) (exe_module p) func_count =
      Some (g_symbol_count g1, built_entries (image p) (exe_module p) recs) /\
    g_symbol_count g1 = Z.of_nat (length tbl) /\
    g_symbol_count g1 = Z.of_nat (length (filter (qualifies (image p)) recs)) /\
    g_symbol_count g1 <= func_count /\
    (g_symbol_count g1 = func_count <->
     Forall (fun s => is_text (image p) s = true -> is_internal (image p) s = false)
            recs).
Proof.
  intros Hok Hinit H Htbl.
  destruct (init_built p g g1 r tbl Hok Hinit H Htbl)
    as (_ & _ & _ & recs & Hscan & Hcount & -> & Hlen).
  destruct (built_table_ok (image p) (exe_module p) recs) as (Hqlen & _).
  assert (length (built_entries (image p) (exe_module p) recs) =
          length (filter (qualifies (image p)) recs)) as Hb
    by (unfold built_entries; apply length_map).
  pose proof (filter_qualifies_length (image p) recs) as Hle.
  exists recs, (Z.of_nat (length (filter (is_text (image p)) recs))).
  split; [exact Hscan|]. split; [exact Hcount|]. split; [reflexivity|].
  split.
  { unfold fill_symbol_table.
    rewrite (fill_loop_scan _ _ _ _ _ _ _ recs Hscan) by lia.
    rewrite Hlen, Hb. reflexivity. }
  split; [rewrite Hlen, Hqlen; reflexivity|].
  split; [rewrite Hlen, Hb; reflexivity|].
  split; [rewrite Hlen, Hb; lia|].
  rewrite Hlen, Hb. rewrite <- filter_text_all_qualify. lia.
Qed.

(** C8, amended.  For a table of at most [2^32 - 256] raw records the 32-bit
    index cannot wrap: after a primary record with [k] auxiliary records the
    index is [i + 1 + k] in both passes, the records visited are exactly the
    primary records of the raw table, pass one counts the text symbols among
    them, and pass two stores, in their original order, the entries of those
    that qualify. *)
Theorem C8_aux_records_skipped (img : pe_image) (runtime_base : Z) :
  NumberOfSymbols img <= 2 ^ 32 - 256 ->
  let prim := primary_records (raw_records img) in
  (forall i,
     0 <= i < NumberOfSymbols img ->
     next_index i (symbols img i) =
     i + 1 + byte_val (NumberOfAuxSymbols (symbols img i))) /\
  scan img (scan_fuel img) 0 = Some prim /\
  count_text_symbols img = Some (Z.of_nat (length (filter (is_text img) prim))) /\
  fill_symbol_table img runtime_base (Z.of_nat (length (filter (is_text img) prim))) =
    Some (Z.of_nat (length (filter (qualifies img) prim)),
          map (make_entry img runtime_base) (filter (qualifies img) prim)).
Proof.
  intros Hsmall prim.
  pose proof (scan_primaries img Hsmall) as Hscan. fold prim in Hscan.
  split; [intros i Hi; apply next_index_small; lia|].
  split; [exact Hscan|]. split.
  - unfold count_text_symbols. rewrite count_loop_scan, Hscan. reflexivity.
  - unfold fill_symbol_table.
    rewrite (fill_loop_scan _ _ _ _ _ _ _ prim Hscan) by lia. reflexivity.
Qed.

End ClaimsPasses.

Lemma C3_two_pass_counts_witness :
  globals_ok initial_globals /\ g_initialized initial_globals = 0 /\
  unw_windows_sym_init demo_process initial_globals = Some (0, demo_ready) /\
  exists recs func_count,
    scan (image demo_process) (scan_fuel (image demo_process)) 0 = Some recs /\
    count_text_symbols (image demo_process) = Some func_count /\
    func_count = Z.of_nat (length (filter (is_text (image demo_process)) recs)) /\
    fill_symbol_table (image demo_process) (exe_module demo_process) func_count =
      Some (g_symbol_count demo_ready,
            built_entries (image demo_process) (exe_module demo_process) recs) /\
    g_symbol_count demo_ready =
      Z.of_nat (length [ {| address := 0x7ff600001040;
                            name := chars "resolve_symbol_name" |};
                         {| address := 0x7ff600001100; name := chars "main" |} ]) /\
    g_symbol_count demo_ready =
      Z.of_nat (length (filter (qualifies (image demo_process)) recs)) /\
    g_symbol_count demo_ready <= func_count /\
    (g_symbol_count demo_ready = func_count <->
     Forall (fun s => is_text (image demo_process) s = true ->
                      is_internal (image demo_process) s = false) recs).
Proof.
  split; [exact initial_globals_ok|]. split; [reflexivity|].
  split; [exact demo_init|].
  exact (C3_two_pass_counts demo_process initial_globals demo_ready 0 _
           initial_globals_ok eq_refl demo_init eq_refl).
Defined.

(** C3 as stated fails on [demo_image]: pass one counts three text symbols
    ([.text], [main], [resolve_symbol_name]), which sizes the allocation,
    while pass two stores two entries, [.text] being internal. *)
Lemma C3_counterexample :
  count_text_symbols demo_image = Some 3 /\
  fill_symbol_table demo_image (exe_module demo_process) 3 =
    Some (2, [ {| address := 0x7ff600001100; name := chars "main" |};
               {| address := 0x7ff600001040; name := chars "resolve_symbol_name" |} ]) /\
  unw_windows_sym_init demo_process initial_globals = Some (0, demo_ready) /\
  g_symbol_count demo_ready = 2.
Proof. repeat split; vm_compute; reflexivity. Qed.

Lemma C8_aux_records_skipped_witness :
  NumberOfSymbols demo_image <= 2 ^ 32 - 256 /\
  let prim := primary_records (raw_records demo_image) in
  (forall i,
     0 <= i < NumberOfSymbols demo_image ->
     next_index i (symbols demo_image i) =
     i + 1 + byte_val (NumberOfAuxSymbols (symbols demo_image i))) /\
  scan demo_image (scan_fuel demo_image) 0 = Some prim /\
  count_text_symbols demo_image =
    Some (Z.of_nat (length (filter (is_text demo_image) prim))) /\
  fill_symbol_table demo_image 0x7ff600000000
      (Z.of_nat (length (filter (is_text demo_image) prim))) =
    Some (Z.of_nat (length (filter (qualifies demo_image) prim)),
          map (make_entry demo_image 0x7ff600000000)
              (filter (qualifies demo_image) prim)).
Proof.
  assert (NumberOfSymbols demo_image <= 2 ^ 32 - 256) as Hsmall by (simpl; lia).
  split; [exact Hsmall|].
  exact (C8_aux_records_skipped demo_image 0x7ff600000000 Hsmall).
Defined.

(** On [demo_image] the record after [.text] is its auxiliary record: it is
    not among the primary records although its bytes read as a function. *)
Example demo_primary_records :
  map (fun s => c_str (ShortName s)) (primary_records (raw_records demo_image)) =
  [ chars ".text"; chars "main"; chars "counter"; [] ] /\
  is_text demo_image (symbols demo_image 1) = true.
Proof. split; vm_compute; reflexivity. Qed.

Lemma all_aux_next (m : Z) :
  0 <= m < 2 ^ 24 ->
  exists m', 0 <= m' < 2 ^ 24 /\
    next_index (256 * m) (symbols all_aux_image (256 * m)) = 256 * m'.
Proof.
  intros Hm. unfold next_index.
  change (byte_val (NumberOfAuxSymbols (symbols all_aux_image (256 * m)))) with 255.
  rewrite (wrap32_small (256 * m + 255)) by lia.
  destruct (Z.eq_dec m (2 ^ 24 - 1)) as [->|Hne].
  - exists 0. split; [lia|]. reflexivity.
  - exists (m + 1). split; [lia|]. rewrite wrap32_small by lia. lia.
Qed.

Lemma all_aux_count_diverges (fuel : nat) :
  forall m c, 0 <= m < 2 ^ 24 -> count_loop all_aux_image fuel (256 * m) c = None.
Proof.
  induction fuel as [|fuel IH]; intros m c Hm; [reflexivity|].
  rewrite count_loop_step.
  assert ((256 * m <? NumberOfSymbols all_aux_image) = true) as ->
    by (apply Z.ltb_lt; change (NumberOfSymbols all_aux_image) with (2 ^ 32 - 1); lia).
  destruct (all_aux_next m Hm) as (m' & Hm' & ->).
  apply IH. exact Hm'.
Qed.

(** C8 as stated fails when the index wraps: in [all_aux_image] the record at
    index [2^32 - 256] has 255 auxiliary records and the next index is 0, not
    [2^32]; the scan starts over, pass one never ends and the initialization
    does not return. *)
Lemma C8_counterexample :
  0 <= 2 ^ 32 - 256 < NumberOfSymbols all_aux_image /\
  byte_val (NumberOfAuxSymbols (symbols all_aux_image (2 ^ 32 - 256))) = 255 /\
  next_index (2 ^ 32 - 256) (symbols all_aux_image (2 ^ 32 - 256)) = 0 /\
  count_text_symbols all_aux_image = None /\
  unw_windows_sym_init all_aux_process initial_globals = None.
Proof.
  assert (count_text_symbols all_aux_image = None) as Hcount.
  { unfold count_text_symbols.
    apply (all_aux_count_diverges (scan_fuel all_aux_image) 0 0). lia. }
  split; [change (NumberOfSymbols all_aux_image) with (2 ^ 32 - 1); lia|].
  split; [reflexivity|]. split; [reflexivity|]. split; [exact Hcount|].
  unfold unw_windows_sym_init.
  rewrite ensure_initialized_first by reflexivity.
  rewrite parse_diverges; [reflexivity| | | |exact Hcount].
  - unfold image_accessible, MAX_PATH; simpl. repeat split; try reflexivity; lia.
  - simpl. lia.
  - change (NumberOfSymbols (image all_aux_process)) with (2 ^ 32 - 1). lia.
Qed.

Section ClaimsLifecycle.
Context {libc : Libc}.

(** Once a call of [unw_windows_sym_init] has returned, every later call
    returns 0 and leaves the globals as they are: the parse is not run again,
    whatever the first call returned. *)
Lemma init_after_init (p p' : process) (g g1 : globals) (r : Z) :
  globals_ok g -> unw_windows_sym_init p g = Some (r, g1) ->
  unw_windows_sym_init p' g1 = Some (0, g1).
Proof.
  intros Hok H.
  destruct (ensure_initialized_ok p g g1 r Hok H) as (_ & Hinit & Hlock).
  unfold unw_windows_sym_init.
  rewrite (ensure_initialized_ready p' g1 Hinit), (init_lock_done g1 Hlock).
  reflexivity.
Qed.

(** The first call from an uninitialized state runs the parse once and
    returns what the parse returned. *)
Lemma init_first_runs_parse (p : process) (g g1 : globals) (r : Z) :
  globals_ok g -> g_initialized g = 0 ->
  unw_windows_sym_init p g = Some (r, g1) ->
  parse_runs g1 = S (parse_runs g) /\
  exists g', parse_coff_symbols p (init_lock g) = Some (r, g').
Proof.
  intros (Htab & Hnone & _) Hinit H. unfold unw_windows_sym_init in H.
  rewrite (ensure_initialized_first p g Hinit) in H.
  destruct (parse_coff_symbols p (init_lock g)) as [[r0 g0]|] eqn:Hp;
    [|discriminate].
  injection H as <- <-.
  destruct (init_lock_fields g) as (_ & Ht & Hc & Hruns & _).
  assert (g_symbol_table (init_lock g) = None) as Ht0
    by (rewrite Ht; apply Hnone; exact Hinit).
  assert (g_symbol_count (init_lock g) = 0) as Hc0.
  { rewrite Hc. unfold table_ok in Htab. rewrite (Hnone Hinit) in Htab. exact Htab. }
  destruct (parse_coff_symbols_result p _ _ _ Ht0 Hc0 Hp) as (_ & _ & Hr & _).
  split; [simpl; rewrite Hr, Hruns; reflexivity|].
  exists g0. reflexivity.
Qed.

Lemma cleanup_parse_runs (g : globals) :
  parse_runs (unw_windows_sym_cleanup g) = parse_runs g.
Proof.
  unfold unw_windows_sym_cleanup. destruct (g_initialized g =? 0); reflexivity.
Qed.

(** C1, amended.  [unw_windows_sym_cleanup] leaves the module uninitialized
    with no table.  A resolver call made then, before any explicit
    [unw_windows_sym_init], returns 0, [UNW_EUNSPEC] or [UNW_ENOINFO]; when it
    does not return 0 the caller's buffer and offset cell are untouched; when
    it returns 0 it has itself run the parse pipeline once more, and the
    string in the buffer is a prefix of the name of a qualifying primary
    record of the image parsed by this very call, so never a name kept from
    the table that was released. *)
Theorem C1_resolve_after_cleanup (g : globals) (p : process)
    (cursor : option unw_cursor_t) (buf : option (list ascii)) (L : Z)
    (offp : option Z) (res : proc_name_result) :
  globals_ok g ->
  let g0 := unw_windows_sym_cleanup g in
  (g_initialized g0 = 0 /\ g_symbol_table g0 = None /\ g_symbol_count g0 = 0) /\
  (unw_get_proc_name_windows p cursor buf L offp g0 = Some res ->
   (rv res = 0 \/ rv res = UNW_EUNSPEC \/ rv res = UNW_ENOINFO) /\
   (rv res <> 0 -> out_buf res = buf /\ out_off res = offp) /\
   (rv res = 0 ->
    parse_runs (out_globals res) = S (parse_runs g) /\
    exists recs sym,
      scan (image p) (scan_fuel (image p)) 0 = Some recs /\ In sym recs /\
      qualifies (image p) sym = true /\
      g_symbol_table (out_globals res) =
        Some (qsort compare_symbols (built_entries (image p) (exe_module p) recs)) /\
      exists rest,
        strncpy 255 (symbol_name (image p) sym) =
        buffer_string (out_buf res) ++ rest)).
Proof.
  intros Hok g0.
  destruct (cleanup_ok g Hok) as (Hok0 & Hinit0 & Ht0 & Hc0). fold g0 in Hok0, Hinit0, Ht0, Hc0.
  split; [repeat split; assumption|].
  intros H. unfold unw_get_proc_name_windows in H.
  assert (forall code g',
            (code = UNW_EUNSPEC \/ code = UNW_ENOINFO) ->
            Some {| rv := code; out_buf := buf; out_off := offp; out_globals := g' |}
              = Some res ->
            (rv res = 0 \/ rv res = UNW_EUNSPEC \/ rv res = UNW_ENOINFO) /\
            (rv res <> 0 -> out_buf res = buf /\ out_off res = offp) /\
            (rv res = 0 ->
             parse_runs (out_globals res) = S (parse_runs g) /\
             exists recs sym,
               scan (image p) (scan_fuel (image p)) 0 = Some recs /\ In sym recs /\
               qualifies (image p) sym = true /\
               g_symbol_table (out_globals res) =
                 Some (qsort compare_symbols
                         (built_entries (image p) (exe_module p) recs)) /\
               exists rest,
                 strncpy 255 (symbol_name (image p) sym) =
                 buffer_string (out_buf res) ++ rest)) as Hfail.
  { intros code g' Hcode Heq. injection Heq as <-. simpl.
    split; [right; exact Hcode|]. split; [intros _; split; reflexivity|].
    intros Hz. destruct Hcode as [-> | ->]; discriminate Hz. }
  destruct cursor as [c|]; [|apply (Hfail _ _ (or_introl eq_refl) H)].
  destruct buf as [b|]; [|apply (Hfail _ _ (or_introl eq_refl) H)].
  destruct (L =? 0); [apply (Hfail _ _ (or_introl eq_refl) H)|].
  destruct (ensure_initialized p g0) as [[r g']|] eqn:Hens; [|discriminate].
  destruct (r =? 0) eqn:Hr; simpl negb in H; cbv iota in H;
    [|apply (Hfail _ _ (or_introl eq_refl) H)].
  apply Z.eqb_eq in Hr. subst r.
  destruct (negb (get_reg_ret c =? 0)); [apply (Hfail _ _ (or_introl eq_refl) H)|].
  destruct (reg_ip c =? 0); [apply (Hfail _ _ (or_intror eq_refl) H)|].
  destruct (find_symbol g' (reg_ip c)) as [e|] eqn:Hfind;
    [|apply (Hfail _ _ (or_intror eq_refl) H)].
  injection H as <-. simpl.
  split; [left; reflexivity|]. split; [intros Hne; exfalso; apply Hne; reflexivity|].
  intros _.
  destruct (find_symbol_In g' (reg_ip c) e Hfind) as (tbl & Htbl & Hin & _).
  destruct (init_built p g0 g' 0 tbl Hok0 Hinit0 Hens Htbl)
    as (_ & _ & Hruns & recs & Hscan & _ & Hbuilt & _).
  split; [rewrite Hruns; unfold g0; rewrite cleanup_parse_runs; reflexivity|].
  rewrite Hbuilt in Hin.
  apply (Permutation_in _ (Permutation_sym (qsort_perm _))) in Hin.
  unfold built_entries in Hin. apply in_map_iff in Hin.
  destruct Hin as (sym & <- & Hsym). apply filter_In in Hsym.
  destruct Hsym as [Hrec Hq].
  exists recs, sym. repeat split; try assumption.
  - rewrite Htbl, Hbuilt. reflexivity.
  - simpl name.
    set (nm := strncpy 255 (symbol_name (image p) sym)).
    set (n := if L <=? strlen nm then L - 1 else strlen nm).
    assert (n <= strlen nm) as Hn.
    { unfold n. destruct (L <=? strlen nm) eqn:E; [apply Z.leb_le in E|]; lia. }
    rewrite (store_name_string b nm n Hn).
    destruct (strncpy_ok 255 (symbol_name (image p) sym)) as [Hnul _].
    fold nm in Hnul. rewrite (c_str_id nm Hnul).
    exists (skipn (Z.to_nat n) nm). symmetry. apply firstn_skipn.
Qed.

End ClaimsLifecycle.

Lemma C1_resolve_after_cleanup_witness :
  globals_ok demo_ready /\
  unw_get_proc_name_windows demo_process (Some (cursor_at 0x7ff600001050))
    (Some (chars "????????")) 8 (Some 9) (unw_windows_sym_cleanup demo_ready) =
  Some demo_after_cleanup /\
  parse_runs (out_globals demo_after_cleanup) = S (parse_runs demo_ready) /\
  exists recs sym,
    scan (image demo_process) (scan_fuel (image demo_process)) 0 = Some recs /\
    In sym recs /\
    qualifies (image demo_process) sym = true /\
    g_symbol_table (out_globals demo_after_cleanup) =
      Some (qsort compare_symbols
              (built_entries (image demo_process) (exe_module demo_process) recs)) /\
    exists rest,
      strncpy 255 (symbol_name (image demo_process) sym) =
      buffer_string (out_buf demo_after_cleanup) ++ rest.
Proof.
  assert (unw_get_proc_name_windows demo_process (Some (cursor_at 0x7ff600001050))
            (Some (chars "????????")) 8 (Some 9) (unw_windows_sym_cleanup demo_ready) =
          Some demo_after_cleanup) as Hcall
    by (vm_compute; reflexivity).
  split; [exact demo_ready_ok|]. split; [exact Hcall|].
  destruct (C1_resolve_after_cleanup demo_ready demo_process
              (Some (cursor_at 0x7ff600001050)) (Some (chars "????????")) 8
              (Some 9) demo_after_cleanup demo_ready_ok) as [_ Hres].
  destruct (Hres Hcall) as (_ & _ & Hname).
  exact (Hname eq_refl).
Defined.

(** C1 as stated fails: after initialization and cleanup, with no explicit
    initialization in between, the resolver call returns 0 and writes the
    name [main]; it has run the parse itself (two runs in all). *)
Lemma C1_counterexample :
  unw_windows_sym_init demo_process initial_globals = Some (0, demo_ready) /\
  g_initialized (unw_windows_sym_cleanup demo_ready) = 0 /\
  exists res,
    unw_get_proc_name_windows demo_process (Some (cursor_at 0x7ff600001100))
      (Some (chars "????????")) 8 (Some 9) (unw_windows_sym_cleanup demo_ready)
    = Some res /\
    rv res = 0 /\
    buffer_string (out_buf res) = chars "main" /\
    parse_runs (out_globals res) = 2%nat.
Proof.
  split; [exact demo_init|]. split; [reflexivity|].
  eexists. split; [vm_compute; reflexivity|].
  repeat split.
Qed.

(** C2.  The failing input: the executable path does not fit [MAX_PATH].  The
    first call of [unw_windows_sym_init] runs the parse, which fails, and
    returns -1; the second call, with no cleanup in between, returns 0 without
    running the parse again: the two callers do not see the same result. *)
Theorem C2_second_init_hides_failure :
  unw_windows_sym_init long_path_process initial_globals =
    Some (-1, failed_globals) /\
  unw_windows_sym_init long_path_process failed_globals =
    Some (0, failed_globals) /\
  parse_runs failed_globals = 1%nat.
Proof. repeat split. Qed.

(** * Further properties of the code *)

(** ** The comparison function *)

(** X1.  [compare_symbols] is a comparison function as [qsort] needs one: it
    returns -1, 0 or 1, swapping the arguments negates the result, the result
    is 0 exactly for equal addresses, and "not greater" is transitive. *)
Theorem X1_compare_symbols_consistent (a b c : symbol_entry_t) :
  (compare_symbols a b = -1 \/ compare_symbols a b = 0 \/ compare_symbols a b = 1) /\
  compare_symbols b a = - compare_symbols a b /\
  (compare_symbols a b = 0 <-> address a = address b) /\
  (compare_symbols a b < 0 <-> address a < address b) /\
  (compare_symbols a b <= 0 -> compare_symbols b c <= 0 -> compare_symbols a c <= 0).
Proof.
  unfold compare_symbols.
  destruct (address a <? address b) eqn:Eab, (address b <? address a) eqn:Eba,
           (address b <? address c) eqn:Ebc, (address c <? address b) eqn:Ecb,
           (address a <? address c) eqn:Eac, (address c <? address a) eqn:Eca;
    repeat match goal with
    | H : (_ <? _) = true |- _ => apply Z.ltb_lt in H
    | H : (_ <? _) = false |- _ => apply Z.ltb_ge in H
    end;
    try lia; repeat split; intros; try lia; auto.
Qed.

(** ** Reads stay inside the tables of the image *)

Lemma is_text_symbol_agree (sym : COFF_SYMBOL)
    (secs secs' : Z -> IMAGE_SECTION_HEADER) (n : Z) :
  (forall k, 0 <= k < n -> secs k = secs' k) ->
  is_text_symbol sym secs n = is_text_symbol sym secs' n.
Proof.
  intros Hagree. unfold is_text_symbol.
  destruct (SectionNumber sym <=? 0) eqn:E1; [reflexivity|].
  destruct (n <? SectionNumber sym) eqn:E2; [reflexivity|].
  apply Z.leb_gt in E1. apply Z.ltb_ge in E2. simpl.
  rewrite (Hagree (SectionNumber sym - 1)) by lia. reflexivity.
Qed.

(** X2.  [is_text_symbol] accepts only section numbers from 1 to
    [num_sections] and reads no section header outside that range: section
    arrays that agree on the headers 0 .. [num_sections - 1] give the same
    answer. *)
Theorem X2_is_text_symbol_in_bounds (sym : COFF_SYMBOL)
    (secs secs' : Z -> IMAGE_SECTION_HEADER) (n : Z) :
  (forall k, 0 <= k < n -> secs k = secs' k) ->
  is_text_symbol sym secs n = is_text_symbol sym secs' n /\
  (is_text_symbol sym secs n = true -> 1 <= SectionNumber sym <= n).
Proof.
  intros Hagree. split; [|apply is_text_symbol_section].
  apply is_text_symbol_agree. exact Hagree.
Qed.

Lemma X2_is_text_symbol_in_bounds_witness :
  (forall k, 0 <= k < 1 ->
     array_of data_section [ text_section ] k =
     array_of text_section [ text_section ] k) /\
  array_of data_section [ text_section ] 1 <> array_of text_section [ text_section ] 1 /\
  is_text_symbol (short_symbol "main" 0x100 1 0x20 x02 x00)
    (array_of data_section [ text_section ]) 1 =
  is_text_symbol (short_symbol "main" 0x100 1 0x20 x02 x00)
    (array_of text_section [ text_section ]) 1 /\
  (is_text_symbol (short_symbol "main" 0x100 1 0x20 x02 x00)
     (array_of data_section [ text_section ]) 1 = true ->
   1 <= SectionNumber (short_symbol "main" 0x100 1 0x20 x02 x00) <= 1).
Proof.
  assert (forall k, 0 <= k < 1 ->
            array_of data_section [ text_section ] k =
            array_of text_section [ text_section ] k) as Hagree.
  { intros k Hk. assert (k = 0) as -> by lia. reflexivity. }
  split; [exact Hagree|]. split; [vm_compute; discriminate|].
  exact (X2_is_text_symbol_in_bounds (short_symbol "main" 0x100 1 0x20 x02 x00)
           _ _ 1 Hagree).
Defined.

Lemma strncpy_mem_ext (mem mem' : Z -> ascii) (n : nat) :
  (forall p, mem p = mem' p) ->
  forall p, strncpy_mem mem p n = strncpy_mem mem' p n.
Proof.
  intros Hagree. induction n as [|n IH]; intros p; simpl; [reflexivity|].
  rewrite (Hagree p), IH. reflexivity.
Qed.

Lemma same_tables_is_text (img img' : pe_image) (sym : COFF_SYMBOL) :
  same_tables img img' -> is_text img sym = is_text img' sym.
Proof.
  intros (_ & Hsec & _ & Hsecs & _). unfold is_text. rewrite <- Hsec.
  apply is_text_symbol_agree. exact Hsecs.
Qed.

Lemma same_tables_name (img img' : pe_image) (sym : COFF_SYMBOL) :
  same_tables img img' -> symbol_name img sym = symbol_name img' sym.
Proof.
  intros (_ & _ & _ & _ & Hstr). unfold symbol_name.
  destruct (Zeros sym =? 0); [|reflexivity].
  apply strncpy_mem_ext. exact Hstr.
Qed.

Lemma same_tables_entry (img img' : pe_image) (base : Z) (sym : COFF_SYMBOL) :
  same_tables img img' -> is_text img sym = true ->
  make_entry img base sym = make_entry img' base sym.
Proof.
  intros Hsame Htext. pose proof Hsame as (_ & _ & _ & Hsecs & _).
  unfold make_entry, symbol_rva.
  rewrite (same_tables_name img img' sym Hsame).
  pose proof (is_text_symbol_section _ _ _ Htext) as Hrange.
  rewrite (Hsecs (SectionNumber sym - 1)) by lia. reflexivity.
Qed.

Lemma same_tables_count_loop (img img' : pe_image) (fuel : nat) :
  same_tables img img' ->
  forall i c, 0 <= i -> count_loop img fuel i c = count_loop img' fuel i c.
Proof.
  intros Hsame. pose proof Hsame as (Hnum & _ & Hsyms & _).
  induction fuel as [|fuel IH]; intros i c Hi; [reflexivity|].
  rewrite !count_loop_step, <- Hnum.
  destruct (i <? NumberOfSymbols img) eqn:Hlt; [|reflexivity].
  apply Z.ltb_lt in Hlt. rewrite <- (Hsyms i) by lia.
  rewrite <- (same_tables_is_text img img' _ Hsame).
  apply IH. apply wrap32_range.
Qed.

Lemma same_tables_fill_loop (img img' : pe_image) (base fc : Z) (fuel : nat) :
  same_tables img img' ->
  forall i idx tbl,
    0 <= i ->
    fill_loop img base fc fuel i idx tbl = fill_loop img' base fc fuel i idx tbl.
Proof.
  intros Hsame. pose proof Hsame as (Hnum & _ & Hsyms & _).
  induction fuel as [|fuel IH]; intros i idx tbl Hi; [reflexivity|].
  rewrite !fill_loop_step, <- Hnum.
  destruct (i <? NumberOfSymbols img) eqn:Hlt; [|reflexivity].
  apply Z.ltb_lt in Hlt. rewrite <- (Hsyms i) by lia.
  rewrite <- (same_tables_is_text img img' _ Hsame).
  unfold is_internal. rewrite <- (same_tables_name img img' _ Hsame).
  destruct (idx <? fc); simpl andb; cbv iota; [|reflexivity].
  destruct (is_text img (symbols img i)) eqn:Ht; simpl negb; cbv iota.
  - rewrite <- (same_tables_entry img img' base _ Hsame Ht).
    rewrite !IH by apply wrap32_range. reflexivity.
  - apply IH. apply wrap32_range.
Qed.

(** X3.  The two passes read no raw record at or beyond index
    [NumberOfSymbols] and no section header at or beyond [NumberOfSections]:
    images with the same counts that agree on the records and headers below
    them (and on the string table) give the same count in pass one and the
    same entries in pass two. *)
Theorem X3_passes_read_inside_tables (img img' : pe_image) (base fc : Z) :
  same_tables img img' ->
  count_text_symbols img = count_text_symbols img' /\
  fill_symbol_table img base fc = fill_symbol_table img' base fc.
Proof.
  intros Hsame. pose proof Hsame as (Hnum & _).
  unfold count_text_symbols, fill_symbol_table, scan_fuel. rewrite <- Hnum.
  split.
  - apply same_tables_count_loop; [exact Hsame|lia].
  - apply same_tables_fill_loop; [exact Hsame|lia].
Qed.

Lemma demo_same_tables : same_tables demo_image demo_image_other_tail.
Proof.
  unfold same_tables. simpl.
  split; [reflexivity|]. split; [reflexivity|]. split; [|split].
  - intros i Hi.
    assert (i = 0 \/ i = 1 \/ i = 2 \/ i = 3 \/ i = 4) as H by lia.
    destruct H as [-> | [-> | [-> | [-> | ->]]]]; reflexivity.
  - intros k Hk. assert (k = 0 \/ k = 1) as [-> | ->] by lia; reflexivity.
  - intros p. reflexivity.
Qed.

Lemma X3_passes_read_inside_tables_witness :
  same_tables demo_image demo_image_other_tail /\
  symbols demo_image 5 <> symbols demo_image_other_tail 5 /\
  count_text_symbols demo_image = count_text_symbols demo_image_other_tail /\
  fill_symbol_table demo_image 0x7ff600000000 3 =
  fill_symbol_table demo_image_other_tail 0x7ff600000000 3.
Proof.
  split; [exact demo_same_tables|]. split; [vm_compute; discriminate|].
  exact (X3_passes_read_inside_tables demo_image demo_image_other_tail
           0x7ff600000000 3 demo_same_tables).
Defined.

(** ** Pass two stays inside the allocation *)

Lemma fill_loop_bounded (img : pe_image) (base fc : Z) (fuel : nat) :
  forall i idx tbl idx' tbl',
    fill_loop img base fc fuel i idx tbl = Some (idx', tbl') ->
    idx <= fc -> idx = Z.of_nat (length tbl) ->
    idx <= idx' <= fc /\ idx' = Z.of_nat (length tbl') /\
    exists added, tbl' = tbl ++ added.
Proof.
  induction fuel as [|fuel IH]; intros i idx tbl idx' tbl' H Hle Hlen;
    [discriminate|].
  rewrite fill_loop_step in H.
  destruct ((i <? NumberOfSymbols img) && (idx <? fc)) eqn:Hcond.
  - apply andb_true_iff in Hcond. destruct Hcond as [_ Hidx].
    apply Z.ltb_lt in Hidx.
    destruct (negb (is_text img (symbols img i)));
      [apply (IH _ _ _ _ _ H Hle Hlen)|].
    destruct (is_internal img (symbols img i));
      [apply (IH _ _ _ _ _ H Hle Hlen)|].
    destruct (IH _ _ _ _ _ H) as (Hr & Hl & added & Hadd).
    + lia.
    + rewrite length_app. simpl. lia.
    + split; [lia|]. split; [exact Hl|].
      exists (make_entry img base (symbols img i) :: added).
      rewrite Hadd, <- app_assoc. reflexivity.
  - injection H as <- <-. split; [lia|]. split; [exact Hlen|].
    exists []. symmetry. apply app_nil_r.
Qed.

(** X4.  Pass two never writes past the allocation: whatever count it is
    given, it stores at most that many entries, and the index it returns is
    the number of entries stored. *)
Theorem X4_fill_within_allocation (img : pe_image) (base func_count idx : Z)
    (tbl : list symbol_entry_t) :
  0 <= func_count ->
  fill_symbol_table img base func_count = Some (idx, tbl) ->
  0 <= idx <= func_count /\ idx = Z.of_nat (length tbl).
Proof.
  intros Hfc H. unfold fill_symbol_table in H.
  destruct (fill_loop_bounded img base func_count _ _ _ _ _ _ H Hfc eq_refl)
    as (Hr & Hl & _).
  split; [lia|exact Hl].
Qed.

Lemma X4_fill_within_allocation_witness :
  0 <= 1 /\
  fill_symbol_table demo_image 0x7ff600000000 1 =
    Some (1, [ {| address := 0x7ff600001100; name := chars "main" |} ]) /\
  0 <= 1 <= 1 /\
  1 = Z.of_nat (length [ {| address := 0x7ff600001100; name := chars "main" |} ]).
Proof.
  assert (fill_symbol_table demo_image 0x7ff600000000 1 =
          Some (1, [ {| address := 0x7ff600001100; name := chars "main" |} ]))
    as Hfill by (vm_compute; reflexivity).
  split; [lia|]. split; [exact Hfill|].
  exact (X4_fill_within_allocation demo_image 0x7ff600000000 1 1 _
           ltac:(lia) Hfill).
Defined.

(** ** The entries pass two writes *)

(** X5.  An entry written by pass two has a 64-bit address and a name without
    NUL of at most 255 characters, which is a prefix of the characters read
    for the symbol; a name stored inline in the record gives at most 8
    characters, and a name in the string table is the string found there, cut
    to 255 characters. *)
Theorem X5_entry_well_formed (img : pe_image) (base : Z) (sym : COFF_SYMBOL) :
  let e := make_entry img base sym in
  0 <= address e < 2 ^ 64 /\
  Forall (fun c => is_NUL c = false) (name e) /\
  (length (name e) <= 255)%nat /\
  (exists rest, symbol_name img sym = name e ++ rest) /\
  (Zeros sym <> 0 -> (length (name e) <= 8)%nat) /\
  (Zeros sym = 0 -> name e = strncpy_mem (string_table img) (Offset sym) 255).
Proof.
  intros e. destruct (make_entry_ok img base sym) as (Hrange & Hnul & Hlen).
  fold e in Hrange, Hnul, Hlen.
  split; [exact Hrange|]. split; [exact Hnul|]. split; [exact Hlen|].
  change (name e) with (firstn 255 (c_str (symbol_name img sym))).
  split; [|split].
  - destruct (c_str_prefix (symbol_name img sym)) as [rest Hrest].
    exists (skipn 255 (c_str (symbol_name img sym)) ++ rest).
    rewrite app_assoc, firstn_skipn. exact Hrest.
  - intros Hz. unfold symbol_name. apply Z.eqb_neq in Hz. rewrite Hz.
    rewrite length_firstn.
    pose proof (c_str_length (ShortName sym)) as Hc.
    change (length (ShortName sym)) with 8%nat in Hc. lia.
  - intros Hz. unfold symbol_name. rewrite Hz, Z.eqb_refl.
    destruct (strncpy_mem_ok (string_table img) 255 (Offset sym)) as [Hn Hl].
    rewrite (c_str_id _ Hn). apply firstn_all2. exact Hl.
Qed.

(** ** Outcomes of the initialization *)

Section InitOutcomes.
Context {libc : Libc}.

Lemma parse_return_values (p : process) (g g' : globals) (r : Z) :
  parse_coff_symbols p g = Some (r, g') -> r = 0 \/ r = -1.
Proof.
  unfold parse_coff_symbols.
  repeat match goal with
  | |- context [if ?c then _ else _] =>
      destruct c; [intros H; injection H as <- _; auto|]
  end.
  destruct (count_text_symbols (image p)) as [fc|]; [|discriminate].
  destruct (fc =? 0); [intros H; injection H as <- _; auto|].
  destruct (negb (malloc_succeeds p)); [intros H; injection H as <- _; auto|].
  destruct (fill_symbol_table (image p) _ fc) as [[idx tbl]|]; [|discriminate].
  intros H; injection H as <- _; auto.
Qed.

Lemma parse_inaccessible (p : process) (g : globals) :
  ~ image_accessible p ->
  exists g',
    parse_coff_symbols p g = Some (-1, g') /\
    g_symbol_table g' = g_symbol_table g /\
    g_symbol_count g' = g_symbol_count g /\
    parse_runs g' = S (parse_runs g).
Proof.
  intros Hno. unfold parse_coff_symbols.
  destruct ((path_len p =? 0) || (MAX_PATH <=? path_len p)) eqn:E1;
    [eexists; split; [reflexivity|repeat split]|].
  destruct (file_opened p) eqn:E2; simpl negb; cbv iota;
    [|eexists; split; [reflexivity|repeat split]].
  destruct (mapping_created p) eqn:E3; simpl negb; cbv iota;
    [|eexists; split; [reflexivity|repeat split]].
  destruct (view_mapped p) eqn:E4; simpl negb; cbv iota;
    [|eexists; split; [reflexivity|repeat split]].
  destruct (e_magic (image p) =? IMAGE_DOS_SIGNATURE) eqn:E5; simpl negb; cbv iota;
    [|eexists; split; [reflexivity|repeat split]].
  destruct (Signature (image p) =? IMAGE_NT_SIGNATURE) eqn:E6; simpl negb; cbv iota;
    [|eexists; split; [reflexivity|repeat split]].
  exfalso. apply Hno. apply orb_false_iff in E1. destruct E1 as [E0 E1].
  apply Z.eqb_neq in E0. apply Z.leb_gt in E1.
  apply Z.eqb_eq in E5, E6. unfold image_accessible. repeat split; assumption.
Qed.

Lemma parse_with_symbols (p : process) (g : globals) :
  image_accessible p ->
  PointerToSymbolTable (image p) <> 0 -> NumberOfSymbols (image p) <> 0 ->
  parse_coff_symbols p g =
  let g2 := set_image_base (ImageBase (image p))
              (set_runtime_base (exe_module p) (count_parse_run g)) in
  match count_text_symbols (image p) with
  | None => None
  | Some func_count =>
      if func_count =? 0 then Some (0, g2) else
      if negb (malloc_succeeds p) then Some (-1, set_symbol_table None g2) else
      match fill_symbol_table (image p) (exe_module p) func_count with
      | None => None
      | Some (idx, tbl) =>
          Some (0, set_symbol_table (Some (qsort compare_symbols tbl))
                     (set_symbol_count idx g2))
      end
  end.
Proof.
  intros (Hp0 & Hp1 & Hf & Hm & Hv & Hdos & Hnt) Hoff Hnum.
  unfold parse_coff_symbols.
  apply Z.eqb_neq in Hp0, Hoff, Hnum. apply Z.leb_gt in Hp1.
  rewrite Hp0, Hp1, Hf, Hm, Hv, Hdos, Hnt, !Z.eqb_refl, Hoff, Hnum.
  reflexivity.
Qed.

(** The state in which the first initialization starts its parse. *)
Lemma uninitialized_start (g : globals) :
  globals_ok g -> g_initialized g = 0 ->
  g_symbol_table (init_lock g) = None /\ g_symbol_count (init_lock g) = 0 /\
  parse_runs (init_lock g) = parse_runs g.
Proof.
  intros (Htab & Hnone & _) Hinit.
  destruct (init_lock_fields g) as (_ & Ht & Hc & Hr & _).
  rewrite Ht, Hc, Hr. unfold table_ok in Htab. rewrite (Hnone Hinit) in Htab.
  repeat split; auto.
Qed.

(** X6.  When the image cannot be reached (the path does not fit, the file
    does not open or map, or a signature is wrong) the first initialization
    returns -1 after one run of the parse, leaves no table and a count of 0,
    and still marks the module initialized. *)
Theorem X6_init_inaccessible_image (p : process) (g : globals) :
  globals_ok g -> g_initialized g = 0 -> ~ image_accessible p ->
  exists g1,
    unw_windows_sym_init p g = Some (-1, g1) /\
    g_initialized g1 = 1 /\ g_symbol_table g1 = None /\ g_symbol_count g1 = 0 /\
    parse_runs g1 = S (parse_runs g).
Proof.
  intros Hok Hinit Hno.
  destruct (uninitialized_start g Hok Hinit) as (Ht & Hc & Hr).
  destruct (parse_inaccessible p (init_lock g) Hno) as (g' & Hp & Ht' & Hc' & Hr').
  exists (set_initialized 1 g'). unfold unw_windows_sym_init.
  rewrite (ensure_initialized_first p g Hinit), Hp. simpl.
  repeat split; congruence.
Qed.

(** X7.  When the image has text symbols but [malloc] fails, the first
    initialization returns -1 and leaves no table and a count of 0. *)
Theorem X7_init_allocation_failure (p : process) (g : globals) (func_count : Z) :
  globals_ok g -> g_initialized g = 0 -> image_accessible p ->
  PointerToSymbolTable (image p) <> 0 -> NumberOfSymbols (image p) <> 0 ->
  count_text_symbols (image p) = Some func_count -> func_count <> 0 ->
  malloc_succeeds p = false ->
  exists g1,
    unw_windows_sym_init p g = Some (-1, g1) /\
    g_initialized g1 = 1 /\ g_symbol_table g1 = None /\ g_symbol_count g1 = 0.
Proof.
  intros Hok Hinit Hacc Hoff Hnum Hcount Hfc Hmalloc.
  destruct (uninitialized_start g Hok Hinit) as (Ht & Hc & _).
  unfold unw_windows_sym_init.
  rewrite (ensure_initialized_first p g Hinit).
  rewrite (parse_with_symbols p _ Hacc Hoff Hnum). cbv zeta.
  apply Z.eqb_neq in Hfc. rewrite Hcount, Hfc, Hmalloc. simpl.
  eexists. split; [reflexivity|]. simpl. repeat split; assumption.
Qed.

(** X8.  When the symbol table holds no text symbol, the first initialization
    returns 0 without allocating: no table, count 0. *)
Theorem X8_init_no_text_symbols (p : process) (g : globals) :
  globals_ok g -> g_initialized g = 0 -> image_accessible p ->
  PointerToSymbolTable (image p) <> 0 -> NumberOfSymbols (image p) <> 0 ->
  count_text_symbols (image p) = Some 0 ->
  exists g1,
    unw_windows_sym_init p g = Some (0, g1) /\
    g_initialized g1 = 1 /\ g_symbol_table g1 = None /\ g_symbol_count g1 = 0.
Proof.
  intros Hok Hinit Hacc Hoff Hnum Hcount.
  destruct (uninitialized_start g Hok Hinit) as (Ht & Hc & _).
  unfold unw_windows_sym_init.
  rewrite (ensure_initialized_first p g Hinit).
  rewrite (parse_with_symbols p _ Hacc Hoff Hnum). cbv zeta.
  rewrite Hcount. simpl.
  eexists. split; [reflexivity|]. simpl. repeat split; assumption.
Qed.

(** X9.  [unw_windows_sym_init] returns 0 or -1 and leaves the module
    initialized; a return of -1 comes from a parse run by this call, and then
    there is no table and the count is 0. *)
Theorem X9_init_return_values (p : process) (g g1 : globals) (r : Z) :
  globals_ok g -> unw_windows_sym_init p g = Some (r, g1) ->
  (r = 0 \/ r = -1) /\ g_initialized g1 <> 0 /\
  (r = -1 ->
   g_initialized g = 0 /\ parse_runs g1 = S (parse_runs g) /\
   g_symbol_table g1 = None /\ g_symbol_count g1 = 0).
Proof.
  intros Hok H.
  destruct (ensure_initialized_ok p g g1 r Hok H) as (_ & Hinit1 & _).
  unfold unw_windows_sym_init in H.
  destruct (Z.eq_dec (g_initialized g) 0) as [Hz|Hnz].
  - destruct (uninitialized_start g Hok Hz) as (Ht & Hc & Hr).
    rewrite (ensure_initialized_first p g Hz) in H.
    destruct (parse_coff_symbols p (init_lock g)) as [[r0 g0]|] eqn:Hp;
      [|discriminate].
    injection H as <- <-.
    split; [apply (parse_return_values _ _ _ _ Hp)|]. split; [exact Hinit1|].
    intros Hr0.
    destruct (parse_coff_symbols_result p _ _ _ Ht Hc Hp)
      as (_ & _ & Hruns & [[Hn Hcnt] | (Hzero & _)]); [|lia].
    simpl. repeat split; congruence.
  - rewrite (ensure_initialized_ready p g Hnz) in H. injection H as <- <-.
    split; [left; reflexivity|]. split; [exact Hinit1|]. intros Hr; discriminate Hr.
Qed.

(** X10.  Once a call of [unw_windows_sym_init] has returned, any further
    calls, for whatever process state, all return 0 and leave the globals
    exactly as they are; in particular the parse is not run again. *)
Theorem X10_init_idempotent (p : process) (g g1 : globals) (r : Z)
    (ps : list process) :
  globals_ok g -> unw_windows_sym_init p g = Some (r, g1) ->
  init_all ps g1 = Some (map (fun _ => 0) ps, g1).
Proof.
  intros Hok H. induction ps as [|p' ps IH]; [reflexivity|].
  cbn [init_all map]. rewrite (init_after_init p p' g g1 r Hok H), IH.
  reflexivity.
Qed.

Lemma parse_same_outcome (p : process) (g g0 : globals) :
  g_symbol_table g = g_symbol_table g0 -> g_symbol_count g = g_symbol_count g0 ->
  match parse_coff_symbols p g, parse_coff_symbols p g0 with
  | Some (r, g'), Some (r0, g0') =>
      r = r0 /\ g_symbol_table g' = g_symbol_table g0' /\
      g_symbol_count g' = g_symbol_count g0'
  | None, None => True
  | _, _ => False
  end.
Proof.
  intros Ht Hc. unfold parse_coff_symbols.
  repeat match goal with
  | |- context [if ?c then _ else _] =>
      destruct c; [simpl; repeat split; assumption|]
  end.
  destruct (count_text_symbols (image p)) as [fc|]; [|exact I].
  destruct (fc =? 0); [simpl; repeat split; assumption|].
  destruct (negb (malloc_succeeds p)); [simpl; repeat split; assumption|].
  simpl g_runtime_base.
  destruct (fill_symbol_table (image p) (exe_module p) fc) as [[idx tbl]|];
    [|exact I].
  simpl. repeat split.
Qed.

(** X11.  Cleanup makes a retry possible: an initialization that follows a
    cleanup runs the parse again and gives the return value, the table and
    the count that a first initialization of the same process gives (or, like
    it, does not return). *)
Theorem X11_init_after_cleanup (p : process) (g : globals) :
  globals_ok g ->
  match unw_windows_sym_init p (unw_windows_sym_cleanup g),
        unw_windows_sym_init p initial_globals with
  | Some (r, g1), Some (r', g1') =>
      r = r' /\ g_symbol_table g1 = g_symbol_table g1' /\
      g_symbol_count g1 = g_symbol_count g1' /\
      parse_runs g1 = S (parse_runs g)
  | None, None => True
  | _, _ => False
  end.
Proof.
  intros Hok.
  destruct (cleanup_ok g Hok) as (Hok0 & Hinit0 & _).
  destruct (uninitialized_start _ Hok0 Hinit0) as (Ht & Hc & Hr).
  destruct (uninitialized_start _ initial_globals_ok eq_refl) as (Ht' & Hc' & _).
  unfold unw_windows_sym_init.
  rewrite (ensure_initialized_first p _ Hinit0).
  rewrite (ensure_initialized_first p initial_globals eq_refl).
  pose proof (parse_same_outcome p (init_lock (unw_windows_sym_cleanup g))
                (init_lock initial_globals)
                ltac:(congruence) ltac:(congruence)) as Hsame.
  destruct (parse_coff_symbols p (init_lock (unw_windows_sym_cleanup g)))
    as [[r g1]|] eqn:Hp;
    destruct (parse_coff_symbols p (init_lock initial_globals)) as [[r' g1']|];
    try exact Hsame.
  destruct Hsame as (Hr1 & Ht1 & Hc1). simpl.
  destruct (parse_coff_symbols_result p _ _ _ Ht Hc Hp) as (_ & _ & Hruns & _).
  rewrite Hruns, Hr, cleanup_parse_runs. repeat split; assumption.
Qed.

End InitOutcomes.

(** X12.  [unw_windows_sym_cleanup] always leaves the module uninitialized;
    applied twice it does what it does once; on an uninitialized module it
    changes nothing; on an initialized one it releases the table and zeroes
    the count; it never touches the lock flag or the recorded base
    addresses. *)
Theorem X12_cleanup_idempotent (g : globals) :
  unw_windows_sym_cleanup (unw_windows_sym_cleanup g) = unw_windows_sym_cleanup g /\
  g_initialized (unw_windows_sym_cleanup g) = 0 /\
  (g_initialized g = 0 -> unw_windows_sym_cleanup g = g) /\
  (g_initialized g <> 0 ->
   g_symbol_table (unw_windows_sym_cleanup g) = None /\
   g_symbol_count (unw_windows_sym_cleanup g) = 0) /\
  g_lock_initialized (unw_windows_sym_cleanup g) = g_lock_initialized g /\
  g_image_base (unw_windows_sym_cleanup g) = g_image_base g /\
  g_runtime_base (unw_windows_sym_cleanup g) = g_runtime_base g.
Proof.
  unfold unw_windows_sym_cleanup.
  destruct (g_initialized g =? 0) eqn:E; simpl.
  - rewrite E. simpl. apply Z.eqb_eq in E. repeat split; auto; intros; lia.
  - apply Z.eqb_neq in E. repeat split; auto; intros; lia.
Qed.

(** Proves [image_accessible] for a concrete process. *)
Ltac accessible :=
  unfold image_accessible, MAX_PATH; simpl; repeat split; try reflexivity; lia.

Lemma long_path_inaccessible : ~ image_accessible long_path_process.
Proof.
  unfold image_accessible, MAX_PATH. simpl. intros (_ & H & _). lia.
Qed.

Lemma X6_init_inaccessible_image_witness :
  globals_ok initial_globals /\ g_initialized initial_globals = 0 /\
  ~ image_accessible long_path_process /\
  exists g1,
    unw_windows_sym_init long_path_process initial_globals = Some (-1, g1) /\
    g_initialized g1 = 1 /\ g_symbol_table g1 = None /\ g_symbol_count g1 = 0 /\
    parse_runs g1 = S (parse_runs initial_globals).
Proof.
  split; [exact initial_globals_ok|]. split; [reflexivity|].
  split; [exact long_path_inaccessible|].
  exact (X6_init_inaccessible_image long_path_process initial_globals
           initial_globals_ok eq_refl long_path_inaccessible).
Defined.

Lemma no_memory_accessible : image_accessible no_memory_process.
Proof. accessible. Qed.

Lemma X7_init_allocation_failure_witness :
  globals_ok initial_globals /\ g_initialized initial_globals = 0 /\
  image_accessible no_memory_process /\
  PointerToSymbolTable (image no_memory_process) <> 0 /\
  NumberOfSymbols (image no_memory_process) <> 0 /\
  count_text_symbols (image no_memory_process) = Some 3 /\ 3 <> 0 /\
  malloc_succeeds no_memory_process = false /\
  exists g1,
    unw_windows_sym_init no_memory_process initial_globals = Some (-1, g1) /\
    g_initialized g1 = 1 /\ g_symbol_table g1 = None /\ g_symbol_count g1 = 0.
Proof.
  assert (PointerToSymbolTable (image no_memory_process) <> 0) as Hoff
    by (simpl; lia).
  assert (NumberOfSymbols (image no_memory_process) <> 0) as Hnum
    by (simpl; lia).
  assert (count_text_symbols (image no_memory_process) = Some 3) as Hcount
    by (vm_compute; reflexivity).
  split; [exact initial_globals_ok|]. split; [reflexivity|].
  split; [exact no_memory_accessible|]. split; [exact Hoff|].
  split; [exact Hnum|]. split; [exact Hcount|]. split; [lia|].
  split; [reflexivity|].
  exact (X7_init_allocation_failure no_memory_process initial_globals 3
           initial_globals_ok eq_refl no_memory_accessible Hoff Hnum Hcount
           ltac:(lia) eq_refl).
Defined.

Lemma data_only_accessible : image_accessible data_only_process.
Proof. accessible. Qed.

Lemma X8_init_no_text_symbols_witness :
  globals_ok initial_globals /\ g_initialized initial_globals = 0 /\
  image_accessible data_only_process /\
  PointerToSymbolTable (image data_only_process) <> 0 /\
  NumberOfSymbols (image data_only_process) <> 0 /\
  count_text_symbols (image data_only_process) = Some 0 /\
  exists g1,
    unw_windows_sym_init data_only_process initial_globals = Some (0, g1) /\
    g_initialized g1 = 1 /\ g_symbol_table g1 = None /\ g_symbol_count g1 = 0.
Proof.
  assert (PointerToSymbolTable (image data_only_process) <> 0) as Hoff
    by (simpl; lia).
  assert (NumberOfSymbols (image data_only_process) <> 0) as Hnum
    by (simpl; lia).
  assert (count_text_symbols (image data_only_process) = Some 0) as Hcount
    by (vm_compute; reflexivity).
  split; [exact initial_globals_ok|]. split; [reflexivity|].
  split; [exact data_only_accessible|]. split; [exact Hoff|].
  split; [exact Hnum|]. split; [exact Hcount|].
  exact (X8_init_no_text_symbols data_only_process initial_globals
           initial_globals_ok eq_refl data_only_accessible Hoff Hnum Hcount).
Defined.

Lemma long_path_init :
  unw_windows_sym_init long_path_process initial_globals = Some (-1, failed_globals).
Proof. reflexivity. Qed.

Lemma X9_init_return_values_witness :
  globals_ok initial_globals /\
  unw_windows_sym_init long_path_process initial_globals = Some (-1, failed_globals) /\
  (-1 = 0 \/ -1 = -1) /\ g_initialized failed_globals <> 0 /\
  (-1 = -1 ->
   g_initialized initial_globals = 0 /\
   parse_runs failed_globals = S (parse_runs initial_globals) /\
   g_symbol_table failed_globals = None /\ g_symbol_count failed_globals = 0).
Proof.
  split; [exact initial_globals_ok|]. split; [exact long_path_init|].
  exact (X9_init_return_values long_path_process initial_globals failed_globals
           (-1) initial_globals_ok long_path_init).
Defined.

Lemma X10_init_idempotent_witness :
  globals_ok initial_globals /\
  unw_windows_sym_init demo_process initial_globals = Some (0, demo_ready) /\
  init_all [ long_path_process; stripped_process ] demo_ready =
  Some (map (fun _ => 0) [ long_path_process; stripped_process ], demo_ready).
Proof.
  split; [exact initial_globals_ok|]. split; [exact demo_init|].
  exact (X10_init_idempotent demo_process initial_globals demo_ready 0
           [ long_path_process; stripped_process ] initial_globals_ok demo_init).
Defined.

Lemma X11_init_after_cleanup_witness :
  globals_ok demo_ready /\
  match unw_windows_sym_init demo_process (unw_windows_sym_cleanup demo_ready),
        unw_windows_sym_init demo_process initial_globals with
  | Some (r, g1), Some (r', g1') =>
      r = r' /\ g_symbol_table g1 = g_symbol_table g1' /\
      g_symbol_count g1 = g_symbol_count g1' /\
      parse_runs g1 = S (parse_runs demo_ready)
  | None, None => True
  | _, _ => False
  end.
Proof.
  split; [exact demo_ready_ok|].
  exact (X11_init_after_cleanup demo_process demo_ready demo_ready_ok).
Defined.

(** ** The resolver *)

Section ResolverOutcomes.
Context {libc : Libc}.

(** X13.  In an initialized module the resolver only reads: whatever the
    arguments, the call returns and leaves every global as it was. *)
Theorem X13_resolver_reads_only (p : process) (cursor : option unw_cursor_t)
    (buf : option (list ascii)) (L : Z) (offp : option Z) (g : globals) :
  globals_ok g -> g_initialized g <> 0 ->
  exists res,
    unw_get_proc_name_windows p cursor buf L offp g = Some res /\
    out_globals res = g.
Proof.
  intros Hok Hinit. pose proof Hok as (_ & _ & Hlock).
  unfold unw_get_proc_name_windows.
  destruct cursor as [c|], buf as [b|];
    try (eexists; split; reflexivity).
  destruct (L =? 0); [eexists; split; reflexivity|].
  rewrite (ensure_initialized_ready p g Hinit), (init_lock_done g (Hlock Hinit)).
  simpl.
  destruct (negb (get_reg_ret c =? 0)); [eexists; split; reflexivity|].
  destruct (reg_ip c =? 0); [eexists; split; reflexivity|].
  destruct (find_symbol g (reg_ip c)); eexists; split; reflexivity.
Qed.

(** X14.  The implicit initialization of the resolver is the explicit one:
    a call with a cursor, a buffer and a non-zero length gives, from any
    state, what the same call gives after [unw_windows_sym_init] when that
    returns 0, and [UNW_EUNSPEC] with untouched buffer when it returns
    anything else. *)
Theorem X14_lazy_initialization (p : process) (c : unw_cursor_t)
    (b : list ascii) (L : Z) (offp : option Z) (g g1 : globals) (r : Z) :
  globals_ok g -> L <> 0 ->
  unw_windows_sym_init p g = Some (r, g1) ->
  unw_get_proc_name_windows p (Some c) (Some b) L offp g =
  if r =? 0 then unw_get_proc_name_windows p (Some c) (Some b) L offp g1
  else Some {| rv := UNW_EUNSPEC; out_buf := Some b; out_off := offp;
               out_globals := g1 |}.
Proof.
  intros Hok HL H.
  pose proof (init_after_init p p g g1 r Hok H) as Hagain.
  unfold unw_windows_sym_init in H, Hagain.
  unfold unw_get_proc_name_windows.
  apply Z.eqb_neq in HL. rewrite HL, H.
  destruct (r =? 0) eqn:Hr; [|reflexivity].
  rewrite Hagain. apply Z.eqb_eq in Hr. subst r. reflexivity.
Qed.

Lemma init_failure_no_table (p : process) (g g1 : globals) (r : Z) :
  globals_ok g -> unw_windows_sym_init p g = Some (r, g1) -> r <> 0 ->
  g_symbol_table g1 = None.
Proof.
  intros Hok H Hr. unfold unw_windows_sym_init in H.
  destruct (Z.eq_dec (g_initialized g) 0) as [Hz|Hnz].
  - pose proof Hok as (Htab & Hnone & _).
    destruct (init_lock_fields g) as (_ & Ht & Hc & _).
    rewrite (ensure_initialized_first p g Hz) in H.
    destruct (parse_coff_symbols p (init_lock g)) as [[r0 g0]|] eqn:Hp;
      [|discriminate].
    injection H as <- <-.
    assert (g_symbol_table (init_lock g) = None) as Ht0
      by (rewrite Ht; apply Hnone; exact Hz).
    assert (g_symbol_count (init_lock g) = 0) as Hc0.
    { rewrite Hc. unfold table_ok in Htab. rewrite (Hnone Hz) in Htab. exact Htab. }
    destruct (parse_coff_symbols_result p _ _ _ Ht0 Hc0 Hp)
      as (_ & _ & _ & [[Hn _] | (Hzero & _)]); [exact Hn|lia].
  - rewrite (ensure_initialized_ready p g Hnz) in H. injection H as <- <-. lia.
Qed.

Lemma resolve_all_no_table (g : globals) (calls : list resolve_call) :
  globals_ok g -> g_initialized g <> 0 -> g_symbol_table g = None ->
  Forall usable calls ->
  resolve_all calls g =
  Some (map (fun c => {| rv := UNW_ENOINFO; out_buf := Some (rc_buf c);
                         out_off := rc_offp c; out_globals := g |}) calls).
Proof.
  intros Hok Hinit Ht. induction calls as [|c calls IH]; intros Hcalls;
    [reflexivity|].
  inversion Hcalls as [|? ? (Hreg & Hlen) Hrest]; subst.
  cbn [resolve_all map].
  rewrite (resolve_ready _ _ _ _ _ g Hok Hinit Hlen Hreg).
  unfold find_symbol. rewrite Ht.
  destruct (reg_ip (rc_cursor c) =? 0); cbn [out_globals];
    rewrite (IH Hrest); reflexivity.
Qed.

(** X15.  A failed initialization is reported once.  After
    [unw_windows_sym_init] has returned a non-zero value, every resolver call
    with usable arguments returns [UNW_ENOINFO] (not an error, not a name)
    and changes nothing, until a cleanup. *)
Theorem X15_resolve_after_failed_init (p : process) (g g1 : globals) (r : Z)
    (calls : list resolve_call) :
  globals_ok g -> unw_windows_sym_init p g = Some (r, g1) -> r <> 0 ->
  Forall usable calls ->
  resolve_all calls g1 =
  Some (map (fun c => {| rv := UNW_ENOINFO; out_buf := Some (rc_buf c);
                         out_off := rc_offp c; out_globals := g1 |}) calls).
Proof.
  intros Hok H Hr Hcalls.
  destruct (ensure_initialized_ok p g g1 r Hok H) as (Hok1 & Hinit1 & _).
  apply resolve_all_no_table; try assumption.
  apply (init_failure_no_table p g g1 r Hok H Hr).
Qed.

(** X16.  The resolver returns 0, [UNW_EUNSPEC] or [UNW_ENOINFO].  Unless it
    returns 0 it writes nothing: buffer and offset cell are the caller's.  It
    never stores an offset through a NULL [offp], and it returns 0 only for
    a readable cursor with a non-zero instruction pointer. *)
Theorem X16_resolver_return_codes (p : process) (cursor : option unw_cursor_t)
    (buf : option (list ascii)) (L : Z) (offp : option Z) (g : globals)
    (res : proc_name_result) :
  unw_get_proc_name_windows p cursor buf L offp g = Some res ->
  (rv res = 0 \/ rv res = UNW_EUNSPEC \/ rv res = UNW_ENOINFO) /\
  (rv res <> 0 -> out_buf res = buf /\ out_off res = offp) /\
  (offp = None -> out_off res = None) /\
  (rv res = 0 ->
   exists c b, cursor = Some c /\ buf = Some b /\ L <> 0 /\
               get_reg_ret c = 0 /\ reg_ip c <> 0).
Proof.
  intros H. unfold unw_get_proc_name_windows in H.
  assert (forall code g',
            (code = UNW_EUNSPEC \/ code = UNW_ENOINFO) ->
            Some {| rv := code; out_buf := buf; out_off := offp; out_globals := g' |}
              = Some res ->
            (rv res = 0 \/ rv res = UNW_EUNSPEC \/ rv res = UNW_ENOINFO) /\
            (rv res <> 0 -> out_buf res = buf /\ out_off res = offp) /\
            (offp = None -> out_off res = None) /\
            (rv res = 0 ->
             exists c b, cursor = Some c /\ buf = Some b /\ L <> 0 /\
                         get_reg_ret c = 0 /\ reg_ip c <> 0)) as Hfail.
  { intros code g' Hcode Heq. injection Heq as <-. simpl.
    split; [right; exact Hcode|]. split; [intros _; split; reflexivity|].
    split; [intros Hn; exact Hn|].
    intros Hz. destruct Hcode as [-> | ->]; discriminate Hz. }
  destruct cursor as [c|]; [|apply (Hfail _ _ (or_introl eq_refl) H)].
  destruct buf as [b|]; [|apply (Hfail _ _ (or_introl eq_refl) H)].
  destruct (L =? 0) eqn:HL; [apply (Hfail _ _ (or_introl eq_refl) H)|].
  destruct (ensure_initialized p g) as [[r g']|]; [|discriminate].
  destruct (negb (r =? 0)); [apply (Hfail _ _ (or_introl eq_refl) H)|].
  destruct (get_reg_ret c =? 0) eqn:Hreg; simpl negb in H; cbv iota in H;
    [|apply (Hfail _ _ (or_introl eq_refl) H)].
  destruct (reg_ip c =? 0) eqn:Hip; [apply (Hfail _ _ (or_intror eq_refl) H)|].
  destruct (find_symbol g' (reg_ip c)) as [sym|];
    [|apply (Hfail _ _ (or_intror eq_refl) H)].
  injection H as <-. simpl.
  split; [left; reflexivity|]. split; [intros Hne; exfalso; apply Hne; reflexivity|].
  split; [intros ->; reflexivity|].
  intros _. exists c, b. apply Z.eqb_neq in HL, Hip. apply Z.eqb_eq in Hreg.
  repeat split; assumption.
Qed.

(** X17.  A name is returned only for the floor entry and only near it: when
    the resolver returns 0 for an instruction pointer [ip], the table holds
    an entry whose address is at most [ip] and less than [PROXIMITY] below
    it, no later entry of the table has an address at or below [ip], and the
    offset stored (if asked for) is [ip] minus that address. *)
Theorem X17_hit_is_near_floor (p : process) (c : unw_cursor_t)
    (buf : option (list ascii)) (L : Z) (offp : option Z) (g : globals)
    (res : proc_name_result) :
  globals_ok g -> 0 <= reg_ip c < 2 ^ 64 ->
  unw_get_proc_name_windows p (Some c) buf L offp g = Some res ->
  rv res = 0 ->
  exists tbl i e,
    g_symbol_table (out_globals res) = Some tbl /\
    nth_error tbl i = Some e /\
    address e <= reg_ip c /\ reg_ip c - address e < PROXIMITY /\
    (forall j e', (i < j)%nat -> nth_error tbl j = Some e' -> reg_ip c < address e') /\
    out_off res = option_map (fun _ => reg_ip c - address e) offp.
Proof.
  intros Hok Hip H Hrv. unfold unw_get_proc_name_windows in H.
  destruct buf as [b|]; [|not_a_success H Hrv].
  destruct (L =? 0); [not_a_success H Hrv|].
  destruct (ensure_initialized p g) as [[r g']|] eqn:Hens; [|discriminate].
  destruct (negb (r =? 0)); [not_a_success H Hrv|].
  destruct (negb (get_reg_ret c =? 0)); [not_a_success H Hrv|].
  destruct (reg_ip c =? 0); [not_a_success H Hrv|].
  destruct (find_symbol g' (reg_ip c)) as [sym|] eqn:Hfind;
    [|not_a_success H Hrv].
  injection H as <-. simpl.
  destruct (ensure_initialized_ok p g g' r Hok Hens) as ((Htab & _) & _).
  destruct (find_symbol_In g' (reg_ip c) sym Hfind) as (tbl & Htbl & Hin & _).
  destruct (find_symbol_floor g' tbl (reg_ip c) Htab Htbl Hip)
    as (k & best & (Hk & Hbelow & Habove & Hbest) & Hspec).
  rewrite Hfind in Hspec.
  destruct best as [b'|]; [|discriminate].
  destruct (reg_ip c - address b' <? PROXIMITY) eqn:Hnear; [|discriminate].
  injection Hspec as ->. apply Z.ltb_lt in Hnear.
  destruct k as [|k']; [discriminate|]. symmetry in Hbest.
  pose proof (Hbelow k' b' (Nat.lt_succ_diag_r k') Hbest) as Hle.
  unfold table_ok in Htab. rewrite Htbl in Htab.
  destruct Htab as (_ & _ & Hall). rewrite Forall_forall in Hall.
  destruct (Hall b' Hin) as (Hrange & _).
  exists tbl, k', b'.
  split; [exact Htbl|]. split; [exact Hbest|]. split; [exact Hle|].
  split; [exact Hnear|]. split.
  - intros j e' Hj He'. apply (Habove j e'); [lia|exact He'].
  - rewrite wrap64_small by lia. destruct offp; reflexivity.
Qed.

End ResolverOutcomes.

Lemma demo_hit_call :
  unw_get_proc_name_windows demo_process (Some (cursor_at 0x7ff600001100))
    (Some (chars "xyz")) 3 (Some 0) demo_ready = Some demo_hit.
Proof. vm_compute. reflexivity. Qed.

Lemma demo_ready_initialized : g_initialized demo_ready <> 0.
Proof. simpl. lia. Qed.

Lemma X13_resolver_reads_only_witness :
  globals_ok demo_ready /\ g_initialized demo_ready <> 0 /\
  exists res,
    unw_get_proc_name_windows demo_process (Some (cursor_at 0x7ff600001100))
      (Some (chars "xyz")) 3 (Some 0) demo_ready = Some res /\
    out_globals res = demo_ready.
Proof.
  split; [exact demo_ready_ok|]. split; [exact demo_ready_initialized|].
  exact (X13_resolver_reads_only demo_process (Some (cursor_at 0x7ff600001100))
           (Some (chars "xyz")) 3 (Some 0) demo_ready
           demo_ready_ok demo_ready_initialized).
Defined.

Lemma X14_lazy_initialization_witness :
  globals_ok initial_globals /\ 3 <> 0 /\
  unw_windows_sym_init demo_process initial_globals = Some (0, demo_ready) /\
  unw_get_proc_name_windows demo_process (Some (cursor_at 0x7ff600001100))
    (Some (chars "xyz")) 3 (Some 0) initial_globals =
  (if 0 =? 0
   then unw_get_proc_name_windows demo_process (Some (cursor_at 0x7ff600001100))
          (Some (chars "xyz")) 3 (Some 0) demo_ready
   else Some {| rv := UNW_EUNSPEC; out_buf := Some (chars "xyz");
                out_off := Some 0; out_globals := demo_ready |}).
Proof.
  split; [exact initial_globals_ok|]. split; [lia|]. split; [exact demo_init|].
  exact (X14_lazy_initialization demo_process (cursor_at 0x7ff600001100)
           (chars "xyz") 3 (Some 0) initial_globals demo_ready 0
           initial_globals_ok ltac:(lia) demo_init).
Defined.

Lemma demo_call_usable : Forall usable [ demo_call ].
Proof.
  constructor; [|constructor]. unfold usable. simpl. split; [reflexivity|lia].
Qed.

Lemma X15_resolve_after_failed_init_witness :
  globals_ok initial_globals /\
  unw_windows_sym_init long_path_process initial_globals = Some (-1, failed_globals) /\
  -1 <> 0 /\ Forall usable [ demo_call ] /\
  resolve_all [ demo_call ] failed_globals =
  Some (map (fun c => {| rv := UNW_ENOINFO; out_buf := Some (rc_buf c);
                         out_off := rc_offp c; out_globals := failed_globals |})
            [ demo_call ]).
Proof.
  split; [exact initial_globals_ok|]. split; [exact long_path_init|].
  split; [lia|]. split; [exact demo_call_usable|].
  exact (X15_resolve_after_failed_init long_path_process initial_globals
           failed_globals (-1) [ demo_call ]
           initial_globals_ok long_path_init ltac:(lia) demo_call_usable).
Defined.

Lemma X16_resolver_return_codes_witness :
  unw_get_proc_name_windows demo_process (Some (cursor_at 0x7ff600001100))
    (Some (chars "xyz")) 3 (Some 0) demo_ready = Some demo_hit /\
  (rv demo_hit = 0 \/ rv demo_hit = UNW_EUNSPEC \/ rv demo_hit = UNW_ENOINFO) /\
  (rv demo_hit <> 0 ->
   out_buf demo_hit = Some (chars "xyz") /\ out_off demo_hit = Some 0) /\
  (Some 0 = None -> out_off demo_hit = None) /\
  (rv demo_hit = 0 ->
   exists c b, Some (cursor_at 0x7ff600001100) = Some c /\
               Some (chars "xyz") = Some b /\ 3 <> 0 /\
               get_reg_ret c = 0 /\ reg_ip c <> 0).
Proof.
  split; [exact demo_hit_call|].
  exact (X16_resolver_return_codes demo_process (Some (cursor_at 0x7ff600001100))
           (Some (chars "xyz")) 3 (Some 0) demo_ready demo_hit demo_hit_call).
Defined.

Lemma X17_hit_is_near_floor_witness :
  globals_ok demo_ready /\ 0 <= reg_ip (cursor_at 0x7ff600001100) < 2 ^ 64 /\
  unw_get_proc_name_windows demo_process (Some (cursor_at 0x7ff600001100))
    (Some (chars "xyz")) 3 (Some 0) demo_ready = Some demo_hit /\
  rv demo_hit = 0 /\
  exists tbl i e,
    g_symbol_table (out_globals demo_hit) = Some tbl /\
    nth_error tbl i = Some e /\
    address e <= reg_ip (cursor_at 0x7ff600001100) /\
    reg_ip (cursor_at 0x7ff600001100) - address e < PROXIMITY /\
    (forall j e', (i < j)%nat -> nth_error tbl j = Some e' ->
                  reg_ip (cursor_at 0x7ff600001100) < address e') /\
    out_off demo_hit =
      option_map (fun _ => reg_ip (cursor_at 0x7ff600001100) - address e) (Some 0).
Proof.
  assert (0 <= reg_ip (cursor_at 0x7ff600001100) < 2 ^ 64) as Hip by (simpl; lia).
  split; [exact demo_ready_ok|]. split; [exact Hip|].
  split; [exact demo_hit_call|]. split; [reflexivity|].
  exact (X17_hit_is_near_floor demo_process (cursor_at 0x7ff600001100)
           (Some (chars "xyz")) 3 (Some 0) demo_ready demo_hit
           demo_ready_ok Hip demo_hit_call eq_refl).
Defined.

(** ** The binary search *)

Lemma linear_floor_at (addr : Z) (tbl : list symbol_entry_t) :
  forall k init,
    (k <= length tbl)%nat ->
    (forall j e, (j < k)%nat -> nth_error tbl j = Some e -> address e <= addr) ->
    (forall j e, (k <= j)%nat -> nth_error tbl j = Some e -> addr < address e) ->
    linear_floor tbl addr init =
    match k with O => init | S k' => nth_error tbl k' end.
Proof.
  induction tbl as [|x tbl IH]; intros k init Hk Hbelow Habove.
  - destruct k; [reflexivity|simpl in Hk; lia].
  - simpl linear_floor. destruct k as [|k].
    + pose proof (Habove 0%nat x ltac:(lia) eq_refl) as Hx.
      apply Z.leb_gt in Hx. rewrite Hx.
      apply (IH 0%nat init); [lia| |].
      * intros j e Hj. lia.
      * intros j e _ He. apply (Habove (S j) e); [lia|exact He].
    + pose proof (Hbelow 0%nat x ltac:(lia) eq_refl) as Hx.
      apply Z.leb_le in Hx. rewrite Hx.
      rewrite (IH k (Some x)).
      * destruct k; reflexivity.
      * simpl in Hk. lia.
      * intros j e Hj He. apply (Hbelow (S j) e); [lia|exact He].
      * intros j e Hj He. apply (Habove (S j) e); [lia|exact He].
Qed.

(** X18.  On a table that is sorted and counted, the binary search of
    [find_symbol] finds what a search through the whole table finds: the last
    entry whose address does not exceed the query, accepted when the query is
    less than [PROXIMITY] past it. *)
Theorem X18_binary_search_is_floor (g : globals) (tbl : list symbol_entry_t)
    (addr : Z) :
  table_ok g -> g_symbol_table g = Some tbl -> 0 <= addr < 2 ^ 64 ->
  find_symbol g addr =
  match linear_floor tbl addr None with
  | Some b => if addr - address b <? PROXIMITY then Some b else None
  | None => None
  end.
Proof.
  intros Htab Htbl Haddr.
  destruct (find_symbol_floor g tbl addr Htab Htbl Haddr)
    as (k & best & (Hk & Hbelow & Habove & Hbest) & Hspec).
  rewrite Hspec, (linear_floor_at addr tbl k None Hk Hbelow Habove), Hbest.
  destruct k; reflexivity.
Qed.

Lemma demo_table_ok : table_ok demo_ready.
Proof. destruct demo_ready_ok as [H _]. exact H. Qed.

Lemma X18_binary_search_is_floor_witness :
  table_ok demo_ready /\
  g_symbol_table demo_ready =
    Some [ {| address := 0x7ff600001040; name := chars "resolve_symbol_name" |};
           {| address := 0x7ff600001100; name := chars "main" |} ] /\
  0 <= 0x7ff600001050 < 2 ^ 64 /\
  find_symbol demo_ready 0x7ff600001050 =
  match linear_floor
          [ {| address := 0x7ff600001040; name := chars "resolve_symbol_name" |};
            {| address := 0x7ff600001100; name := chars "main" |} ]
          0x7ff600001050 None with
  | Some b => if 0x7ff600001050 - address b <? PROXIMITY then Some b else None
  | None => None
  end.
Proof.
  split; [exact demo_table_ok|]. split; [reflexivity|]. split; [lia|].
  exact (X18_binary_search_is_floor demo_ready _ 0x7ff600001050
           demo_table_ok eq_refl ltac:(lia)).
Defined.

Lemma find_loop_steps_done (tbl : list symbol_entry_t) (addr : Z) (fuel : nat)
    (low high : Z) :
  high <= low -> find_loop_steps tbl addr fuel low high = 0.
Proof.
  intros H. apply Z.ltb_ge in H. destruct fuel; simpl; rewrite H; reflexivity.
Qed.

Lemma find_loop_steps_step (tbl : list symbol_entry_t) (addr : Z) (fuel : nat)
    (low high : Z) :
  find_loop_steps tbl addr (S fuel) low high =
  if low <? high then
    match nth_error tbl (Z.to_nat (low + (high - low) / 2)) with
    | Some e =>
        if address e <=? addr
        then 1 + find_loop_steps tbl addr fuel (low + (high - low) / 2 + 1) high
        else 1 + find_loop_steps tbl addr fuel low (low + (high - low) / 2)
    | None => 1
    end
  else 0.
Proof. reflexivity. Qed.

Lemma log2_half (d : Z) : 2 <= d -> Z.log2 (d / 2) + 1 <= Z.log2 d.
Proof.
  intros Hd.
  assert (0 < d / 2) as Hh by (apply Z.div_str_pos; lia).
  pose proof (Z.log2_double (d / 2) Hh) as Hdouble.
  pose proof (Z.mul_div_le d 2 ltac:(lia)) as Hle.
  pose proof (Z.log2_le_mono (2 * (d / 2)) d Hle). lia.
Qed.

(** X19.  The search loop of [find_symbol] halves its range: over a range of
    [high - low >= 1] entries it runs at most [log2 (high - low) + 1]
    iterations. *)
Theorem X19_search_is_logarithmic (tbl : list symbol_entry_t) (addr : Z)
    (fuel : nat) (low high : Z) :
  low < high ->
  find_loop_steps tbl addr fuel low high <= Z.log2 (high - low) + 1.
Proof.
  revert low high. induction fuel as [|fuel IH]; intros low high Hlt.
  - simpl. pose proof (Z.log2_nonneg (high - low)).
    destruct (low <? high); lia.
  - rewrite find_loop_steps_step. pose proof (Z.log2_nonneg (high - low)) as Hnn.
    apply Z.ltb_lt in Hlt. rewrite Hlt. apply Z.ltb_lt in Hlt.
    set (d := high - low) in *. set (mid := low + d / 2).
    assert (0 <= d / 2 < d) as Hhalf
      by (split; [apply Z.div_pos; lia|apply Z.div_lt; lia]).
    destruct (nth_error tbl (Z.to_nat mid)) as [e|]; [|lia].
    destruct (address e <=? addr).
    + destruct (Z.lt_ge_cases (mid + 1) high) as [Hmore|Hdone].
      * pose proof (IH (mid + 1) high Hmore) as Hrec.
        assert (2 <= d) as Hd by (unfold mid in Hmore; lia).
        pose proof (log2_half d Hd) as Hlog.
        assert (Z.log2 (high - (mid + 1)) <= Z.log2 (d / 2)) as Hmono.
        { apply Z.log2_le_mono. unfold mid, d.
          pose proof (Z.div_mod (high - low) 2 ltac:(lia)).
          pose proof (Z.mod_pos_bound (high - low) 2 ltac:(lia)). lia. }
        lia.
      * rewrite find_loop_steps_done by lia. lia.
    + destruct (Z.lt_ge_cases low mid) as [Hmore|Hdone].
      * pose proof (IH low mid Hmore) as Hrec.
        assert (2 <= d) as Hd.
        { destruct (Z.le_gt_cases 2 d) as [H2|H2]; [exact H2|].
          assert (d = 1) as Hd1 by lia. unfold mid in Hmore.
          rewrite Hd1 in Hmore. change (1 / 2) with 0 in Hmore. lia. }
        pose proof (log2_half d Hd) as Hlog.
        replace (mid - low) with (d / 2) in Hrec by (unfold mid; lia).
        lia.
      * rewrite find_loop_steps_done by lia. lia.
Qed.

Lemma X19_search_is_logarithmic_witness :
  0 < 2 /\
  find_loop_steps
    [ {| address := 0x7ff600001040; name := chars "resolve_symbol_name" |};
      {| address := 0x7ff600001100; name := chars "main" |} ]
    0x7ff600001108 2 0 2 <= Z.log2 (2 - 0) + 1.
Proof.
  split; [lia|].
  exact (X19_search_is_logarithmic _ 0x7ff600001108 2 0 2 ltac:(lia)).
Defined.

(** ** What the resolver writes *)

Lemma store_name_layout (buf name : list ascii) (n : Z) :
  0 <= n <= strlen name ->
  nth_error (store_name buf name n) (Z.to_nat n) = Some NUL /\
  (forall j, (Z.to_nat n < j)%nat ->
             nth_error (store_name buf name n) j = nth_error buf j) /\
  (n + 1 <= Z.of_nat (length buf) -> length (store_name buf name n) = length buf).
Proof.
  intros Hn. unfold strlen in Hn. unfold store_name.
  pose proof (c_str_length name) as Hc.
  assert (length (firstn (Z.to_nat n) name) = Z.to_nat n) as Hlen
    by (rewrite length_firstn; lia).
  split; [|split].
  - rewrite nth_error_app2 by lia. rewrite Hlen, Nat.sub_diag. reflexivity.
  - intros j Hj. rewrite nth_error_app2 by lia. rewrite Hlen.
    replace (j - Z.to_nat n)%nat with (S (j - Z.to_nat n - 1)) by lia.
    simpl nth_error. rewrite nth_error_skipn. f_equal. lia.
  - intros Hbuf. rewrite length_app, Hlen. simpl. rewrite length_skipn. lia.
Qed.

Section ResolverWrites.
Context {libc : Libc}.

(** X20.  A successful call writes the bytes 0 .. [n] of the buffer and no
    others, where [n <= buf_len - 1] is the position of the terminating NUL:
    every byte behind the terminator is the caller's, and a buffer of at
    least [buf_len] bytes keeps its size. *)
Theorem X20_writes_stay_in_buffer (p : process) (cursor : option unw_cursor_t)
    (buf : list ascii) (L : Z) (offp : option Z) (g : globals)
    (res : proc_name_result) :
  1 <= L ->
  unw_get_proc_name_windows p cursor (Some buf) L offp g = Some res ->
  rv res = 0 ->
  exists out n,
    out_buf res = Some out /\ 0 <= n <= L - 1 /\
    nth_error out (Z.to_nat n) = Some NUL /\
    (forall j, (Z.to_nat n < j)%nat -> nth_error out j = nth_error buf j) /\
    (L <= Z.of_nat (length buf) -> length out = length buf).
Proof.
  intros HL H Hrv. unfold unw_get_proc_name_windows in H.
  destruct cursor as [c|]; [|not_a_success H Hrv].
  destruct (L =? 0); [not_a_success H Hrv|].
  destruct (ensure_initialized p g) as [[r g']|]; [|discriminate].
  destruct (negb (r =? 0)); [not_a_success H Hrv|].
  destruct (negb (get_reg_ret c =? 0)); [not_a_success H Hrv|].
  destruct (reg_ip c =? 0); [not_a_success H Hrv|].
  destruct (find_symbol g' (reg_ip c)) as [sym|]; [|not_a_success H Hrv].
  injection H as <-. simpl.
  set (n := if L <=? strlen (name sym) then L - 1 else strlen (name sym)).
  assert (0 <= strlen (name sym)) as Hpos by (unfold strlen; lia).
  assert (0 <= n <= strlen (name sym) /\ n <= L - 1) as (Hn & HnL).
  { unfold n. destruct (L <=? strlen (name sym)) eqn:E.
    - apply Z.leb_le in E. lia.
    - apply Z.leb_gt in E. lia. }
  destruct (store_name_layout buf (name sym) n Hn) as (Hnul & Htail & Hsize).
  exists (store_name buf (name sym) n), n.
  split; [reflexivity|]. split; [lia|]. split; [exact Hnul|].
  split; [exact Htail|]. intros Hbuf. apply Hsize. lia.
Qed.

(** X21.  The table an initialization builds is in ascending order of
    address, holds exactly the entries pass two wrote (as a rearrangement),
    and [g_symbol_count] is its length. *)
Theorem X21_table_sorted (p : process) (g g1 : globals) (r : Z)
    (tbl : list symbol_entry_t) :
  globals_ok g -> g_initialized g = 0 ->
  unw_windows_sym_init p g = Some (r, g1) ->
  g_symbol_table g1 = Some tbl ->
  StronglySorted address_le tbl /\
  g_symbol_count g1 = Z.of_nat (length tbl) /\
  exists recs,
    scan (image p) (scan_fuel (image p)) 0 = Some recs /\
    Permutation (built_entries (image p) (exe_module p) recs) tbl.
Proof.
  intros Hok Hinit H Htbl.
  destruct (init_built p g g1 r tbl Hok Hinit H Htbl)
    as (_ & _ & _ & recs & Hscan & _ & -> & Hlen).
  destruct (built_table_ok (image p) (exe_module p) recs) as (Hqlen & Hsorted & _).
  split; [exact Hsorted|]. split; [rewrite Hlen, Hqlen; reflexivity|].
  exists recs. split; [exact Hscan|apply qsort_perm].
Qed.

Lemma ensure_initialized_flags (p : process) (g g' : globals) (r : Z) :
  (g_initialized g = 0 \/ g_initialized g = 1) ->
  (g_lock_initialized g = 0 \/ g_lock_initialized g = 1) ->
  globals_ok g ->
  ensure_initialized p g = Some (r, g') ->
  g_initialized g' = 1 /\ g_lock_initialized g' = 1.
Proof.
  intros Hi Hl Hok H.
  assert (g_lock_initialized (init_lock g) = 1) as Hl1.
  { unfold init_lock. destruct (g_lock_initialized g =? 0) eqn:E; simpl.
    - reflexivity.
    - apply Z.eqb_neq in E. lia. }
  destruct (Z.eq_dec (g_initialized g) 0) as [Hz|Hnz].
  - destruct (uninitialized_start g Hok Hz) as (Ht & Hc & _).
    rewrite (ensure_initialized_first p g Hz) in H.
    destruct (parse_coff_symbols p (init_lock g)) as [[r0 g0]|] eqn:Hp;
      [|discriminate].
    injection H as <- <-.
    destruct (parse_coff_symbols_result p _ _ _ Ht Hc Hp) as (_ & Hlock & _).
    simpl. split; [reflexivity|congruence].
  - rewrite (ensure_initialized_ready p g Hnz) in H. injection H as <- <-.
    destruct (init_lock_fields g) as (Hinit & _). split; [lia|exact Hl1].
Qed.

(** X22.  Whatever sequence of initializations, cleanups and resolver calls
    a client makes, the globals stay consistent: both flags are 0 or 1, an
    initialized module has an initialized lock, an uninitialized module has no
    table, and a table is sorted by address, counted by [g_symbol_count] and
    made of well-formed entries. *)
Theorem X22_reachable_consistent (g : globals) :
  reachable g ->
  globals_ok g /\
  (g_initialized g = 0 \/ g_initialized g = 1) /\
  (g_lock_initialized g = 0 \/ g_lock_initialized g = 1).
Proof.
  intros Hreach. split; [apply reachable_ok; exact Hreach|].
  induction Hreach as [|p g r g' Hr IH Hinit|g Hr IH
                       |p cursor buf buf_len offp g res Hr IH Hres].
  - split; left; reflexivity.
  - destruct IH as [Hi Hl].
    destruct (ensure_initialized_flags p g g' r Hi Hl (reachable_ok g Hr) Hinit)
      as [-> ->].
    split; right; reflexivity.
  - destruct IH as [Hi Hl]. unfold unw_windows_sym_cleanup.
    destruct (g_initialized g =? 0); simpl; split; auto.
  - destruct IH as [Hi Hl]. apply resolve_globals in Hres.
    destruct Hres as [-> | [r Hens]]; [split; assumption|].
    destruct (ensure_initialized_flags p g _ r Hi Hl (reachable_ok g Hr) Hens)
      as [-> ->].
    split; right; reflexivity.
Qed.

End ResolverWrites.

(** X24.  A counting pass that ends has read each raw record at most once:
    the indices it visits are pairwise distinct and below [NumberOfSymbols],
    so it ends within [NumberOfSymbols] iterations, however many steps it is
    allowed, and with the count [count_text_symbols] gives. *)
Theorem X24_pass_visits_each_record_once (img : pe_image) (n : nat) (c : Z) :
  count_loop img n 0 0 = Some c ->
  count_text_symbols img = Some c /\
  exists l,
    scan_indices img n 0 = Some l /\ NoDup l /\
    Forall (fun j => 0 <= j < NumberOfSymbols img) l /\
    (length l <= Z.to_nat (NumberOfSymbols img))%nat.
Proof.
  intros H. split; [apply (count_text_symbols_exact img n c H)|].
  rewrite count_loop_scan, scan_scan_indices in H.
  destruct (scan_indices img n 0) as [l|] eqn:E; [|discriminate].
  pose proof (scan_indices_NoDup img n 0 l E) as Hnd.
  pose proof (scan_indices_range img n 0 l ltac:(lia) E) as Hr.
  exists l. split; [reflexivity|]. split; [exact Hnd|]. split; [exact Hr|].
  apply (distinct_below _ _ Hnd Hr).
Qed.

Lemma X20_writes_stay_in_buffer_witness :
  1 <= 3 /\
  unw_get_proc_name_windows demo_process (Some (cursor_at 0x7ff600001100))
    (Some (chars "xyz")) 3 (Some 0) demo_ready = Some demo_hit /\
  rv demo_hit = 0 /\
  exists out n,
    out_buf demo_hit = Some out /\ 0 <= n <= 3 - 1 /\
    nth_error out (Z.to_nat n) = Some NUL /\
    (forall j, (Z.to_nat n < j)%nat -> nth_error out j = nth_error (chars "xyz") j) /\
    (3 <= Z.of_nat (length (chars "xyz")) -> length out = length (chars "xyz")).
Proof.
  split; [lia|]. split; [exact demo_hit_call|]. split; [reflexivity|].
  exact (X20_writes_stay_in_buffer demo_process (Some (cursor_at 0x7ff600001100))
           (chars "xyz") 3 (Some 0) demo_ready demo_hit
           ltac:(lia) demo_hit_call eq_refl).
Defined.

Lemma X21_table_sorted_witness :
  globals_ok initial_globals /\ g_initialized initial_globals = 0 /\
  unw_windows_sym_init demo_process initial_globals = Some (0, demo_ready) /\
  StronglySorted address_le
    [ {| address := 0x7ff600001040; name := chars "resolve_symbol_name" |};
      {| address := 0x7ff600001100; name := chars "main" |} ] /\
  g_symbol_count demo_ready =
    Z.of_nat (length
      [ {| address := 0x7ff600001040; name := chars "resolve_symbol_name" |};
        {| address := 0x7ff600001100; name := chars "main" |} ]) /\
  exists recs,
    scan (image demo_process) (scan_fuel (image demo_process)) 0 = Some recs /\
    Permutation
      (built_entries (image demo_process) (exe_module demo_process) recs)
      [ {| address := 0x7ff600001040; name := chars "resolve_symbol_name" |};
        {| address := 0x7ff600001100; name := chars "main" |} ].
Proof.
  split; [exact initial_globals_ok|]. split; [reflexivity|].
  split; [exact demo_init|].
  exact (X21_table_sorted demo_process initial_globals demo_ready 0 _
           initial_globals_ok eq_refl demo_init eq_refl).
Defined.

Lemma demo_ready_reachable : reachable demo_ready.
Proof.
  apply (reach_init demo_process initial_globals 0 demo_ready reach_start demo_init).
Qed.

Lemma X22_reachable_consistent_witness :
  reachable demo_ready /\
  globals_ok demo_ready /\
  (g_initialized demo_ready = 0 \/ g_initialized demo_ready = 1) /\
  (g_lock_initialized demo_ready = 0 \/ g_lock_initialized demo_ready = 1).
Proof.
  split; [exact demo_ready_reachable|].
  exact (X22_reachable_consistent demo_ready demo_ready_reachable).
Defined.

Lemma X24_pass_visits_each_record_once_witness :
  count_loop demo_image 10 0 0 = Some 3 /\
  count_text_symbols demo_image = Some 3 /\
  exists l,
    scan_indices demo_image 10 0 = Some l /\ NoDup l /\
    Forall (fun j => 0 <= j < NumberOfSymbols demo_image) l /\
    (length l <= Z.to_nat (NumberOfSymbols demo_image))%nat.
Proof.
  assert (count_loop demo_image 10 0 0 = Some 3) as Hcount
    by (vm_compute; reflexivity).
  split; [exact Hcount|].
  exact (X24_pass_visits_each_record_once demo_image 10 3 Hcount).
Defined.
